(** * Tic-tac-toe backend: [api/game_logic.py] and the handlers of
    [api/main.py], embedded and verified.

    The Python functions are translated one by one.  Lists are Python
    lists: subscripts are integers, a negative subscript counts from the
    end, and a subscript out of range raises [IndexError].  A function that
    can raise returns a [result].  The functions that build a board
    ([apply_move], the trial boards of [best_ai_move]) are given twice: on
    board values, and in [Module Heap] on a store of list objects, where
    copies are allocations and item assignment is an update in place.
    The handlers ([Module Main]) take the tables they query and return the
    tables they commit. *)

From Stdlib Require Import ZArith Lia.
From stdpp Require Import base option list gmap strings sorting.

Local Open Scope string_scope.
Local Open Scope list_scope.
Local Open Scope Z_scope.

(** ** Python run-time: exceptions, subscripts, [range] *)

Inductive exn : Type :=
| IndexError
| TypeError
| Exception (msg : string).

Inductive result (A : Type) : Type :=
| Ok (a : A)
| Raise (e : exn).
Arguments Ok {A} a.
Arguments Raise {A} e.

#[global] Instance result_ret : MRet result := fun A a => Ok a.
#[global] Instance result_bind : MBind result := fun A B f m =>
  match m with
  | Ok a => f a
  | Raise e => Raise e
  end.

(** The position a subscript [i] denotes in a list of length [n]: Python
    adds [n] to a negative subscript once, and then requires [0 <= i < n]. *)
Definition py_pos (n : nat) (i : Z) : option nat :=
  let j := if i <? 0 then i + Z.of_nat n else i in
  if (0 <=? j) && (j <? Z.of_nat n) then Some (Z.to_nat j) else None.

(** [l[i]] *)
Definition py_getitem {A} (l : list A) (i : Z) : result A :=
  match py_pos (length l) i with
  | Some k =>
      match l !! k with
      | Some x => Ok x
      | None => Raise IndexError
      end
  | None => Raise IndexError
  end.

(** [l[i] = x], on the list value *)
Definition py_setitem {A} (l : list A) (i : Z) (x : A) : result (list A) :=
  match py_pos (length l) i with
  | Some k => Ok (<[k:=x]> l)
  | None => Raise IndexError
  end.

(** [range(3)] *)
Definition range3 : list Z := [0; 1; 2].

(** A [for] loop that threads an accumulator and stops at the first
    exception. *)
Fixpoint for_each {A S} (xs : list A) (body : S -> A -> result S) (s : S)
  : result S :=
  match xs with
  | [] => Ok s
  | x :: xs' => s' ← body s x; for_each xs' body s'
  end.

(** A [for] loop whose body may [return]: the first element on which
    [test] holds. *)
Fixpoint first_hit {A} (test : A -> result bool) (xs : list A)
  : result (option A) :=
  match xs with
  | [] => Ok None
  | x :: xs' =>
      b ← test x;
      if b : bool then Ok (Some x) else first_hit test xs'
  end.

(** A list comprehension with a condition. *)
Fixpoint filter_by {A} (test : A -> result bool) (xs : list A)
  : result (list A) :=
  match xs with
  | [] => Ok []
  | x :: xs' =>
      b ← test x;
      rest ← filter_by test xs';
      Ok (if b : bool then x :: rest else rest)
  end.

(** ** Data model: [List[List[Optional[str]]]] *)

(** A cell is [None] or a string. *)
Definition cell : Type := option string.
Definition row : Type := list cell.
Definition board : Type := list row.

(** [a is None] *)
Definition is_None (a : cell) : bool :=
  match a with
  | None => true
  | Some _ => false
  end.

(** [a == b] on cells *)
Definition py_eq (a b : cell) : bool := bool_decide (a = b).

(** The shape every engine function expects: three rows of three cells. *)
Definition board3x3 (b : board) : Prop :=
  length b = 3%nat /\ Forall (fun r : row => length r = 3%nat) b.

(** [board[r][c]] *)
Definition cell_at (b : board) (r c : Z) : result cell :=
  line ← py_getitem b r; py_getitem line c.

(** ** [game_logic.py] *)

Definition empty_board : board :=
  (fun _ => (fun _ => None : cell) <$> range3) <$> range3.

Definition validate_move (b : board) (row col : Z) : result bool :=
  if (0 <=? row) && (row <? 3) && ((0 <=? col) && (col <? 3)) then
    c ← cell_at b row col; Ok (is_None c)
  else Ok false.

(** [r.copy()] yields a list with the same items; on values that is the
    list itself.  The distinct identity of the copy is what [Heap] models. *)
Definition copy_rows (b : board) : board := (fun r : row => r) <$> b.

(** [new_board[row][col] = symbol]: the row object found at [row] is
    updated in place.  The rows of [new_board] are separate copies, so only
    position [row] of [new_board] shows the update. *)
Definition set_cell (b : board) (row col : Z) (symbol : string)
  : result board :=
  line ← py_getitem b row;
  line' ← py_setitem line col (Some symbol);
  py_setitem b row line'.

Definition apply_move (b : board) (row col : Z) (symbol : string)
  : result board :=
  let new_board := copy_rows b in
  set_cell new_board row col symbol.

(** The [lines] list of [check_winner], in the order it is built: for each
    [i], row [i] and then column [i]; then the two diagonals. *)
Definition build_lines (b : board) : result (list row) :=
  lines ← for_each range3 (fun lines i =>
    r ← py_getitem b i;
    let lines := lines ++ [r] in
    x ← cell_at b 0 i;
    y ← cell_at b 1 i;
    z ← cell_at b 2 i;
    Ok (lines ++ [[x; y; z]])) [];
  d0 ← cell_at b 0 0;
  d1 ← cell_at b 1 1;
  d2 ← cell_at b 2 2;
  let lines := lines ++ [[d0; d1; d2]] in
  e0 ← cell_at b 0 2;
  e1 ← cell_at b 1 1;
  e2 ← cell_at b 2 0;
  Ok (lines ++ [[e0; e1; e2]]).

(** [line[0] is not None and line[0] == line[1] == line[2]], with Python's
    short-circuit evaluation of [and] and of the chained comparison. *)
Definition line_complete (line : row) : result bool :=
  a ← py_getitem line 0;
  if is_None a then Ok false
  else
    b ← py_getitem line 1;
    if py_eq a b then
      c ← py_getitem line 2;
      Ok (py_eq b c)
    else Ok false.

Definition check_winner (b : board) : result cell :=
  lines ← build_lines b;
  hit ← first_hit line_complete lines;
  match hit with
  | Some line => py_getitem line 0
  | None => Ok None
  end.

Definition is_board_full (b : board) : bool :=
  forallb (fun r : row => forallb (fun c => negb (is_None c)) r) b.

Definition next_turn (current : string) : string :=
  if String.eqb current "X" then "O" else "X".

(** The cells in the order of the nested loops
    [for r in range(3): for c in range(3)]. *)
Definition cells : list (Z * Z) :=
  r ← range3; c ← range3; [(r, c)].

(** Body of the two search loops of [best_ai_move]: is the cell empty, and
    does [symbol] placed there on a copy of the board win? *)
Definition wins_at (b : board) (symbol : string) (rc : Z * Z) : result bool :=
  let '(r, c) := rc in
  x ← cell_at b r c;
  if is_None x then
    let temp := copy_rows b in
    temp ← set_cell temp r c symbol;
    w ← check_winner temp;
    Ok (py_eq w (Some symbol))
  else Ok false.

Definition is_empty_at (b : board) (rc : Z * Z) : result bool :=
  let '(r, c) := rc in
  x ← cell_at b r c; Ok (is_None x).

(** [random.choice(seq)] is [seq[randbelow(len(seq))]]; [draw] stands for
    the generator's output, reduced into range. *)
Definition random_choice {A} (draw : nat) (seq : list A) : result A :=
  py_getitem seq (Z.of_nat (draw mod length seq)).

Definition no_moves_left : exn := Exception "No moves left".

Definition best_ai_move (b : board) (ai_symbol user_symbol : string)
    (draw : nat) : result (Z * Z) :=
  win ← first_hit (wins_at b ai_symbol) cells;
  match win with
  | Some rc => Ok rc
  | None =>
      block ← first_hit (wins_at b user_symbol) cells;
      match block with
      | Some rc => Ok rc
      | None =>
          empty ← filter_by (is_empty_at b) cells;
          match empty with
          | _ :: _ => random_choice draw empty
          | [] => Raise no_moves_left
          end
      end
  end.

(** ** [main.py]: the replay loop of [make_move] *)

Record move : Type := Move { m_row : Z; m_col : Z; m_player : string }.

(** [board = empty_board(); turn = "X"; for m in moves: ...] *)
Definition rebuild (moves : list move) : result (board * string) :=
  for_each moves (fun '(b, turn) m =>
    b' ← apply_move b (m_row m) (m_col m) (m_player m);
    Ok (b', next_turn turn)) (empty_board, "X").

(** ** The same on a store of list objects

    A Python list is an object with an identity; a board is a list object
    whose items are references to three row objects.  [r.copy()] allocates,
    [l[i] = x] updates the object in place, and every alias of the object
    sees the update. *)

Module Heap.

Definition loc : Type := positive.

Inductive obj : Type :=
| Row (items : list cell)
| Rows (items : list loc).

Abbreviation store := (gmap loc obj).

Definition M (A : Type) : Type := store -> result (A * store).

#[global] Instance M_ret : MRet M := fun A a σ => Ok (a, σ).
#[global] Instance M_bind : MBind M := fun A B f m σ =>
  match m σ with
  | Ok (a, σ') => f a σ'
  | Raise e => Raise e
  end.

(** Run a computation that does not touch the store. *)
Definition lift {A} (r : result A) : M A := fun σ =>
  match r with
  | Ok a => Ok (a, σ)
  | Raise e => Raise e
  end.

Definition new_list (o : obj) : M loc := fun σ =>
  let l := fresh (dom σ) in Ok (l, <[l:=o]> σ).

Definition get_row (l : loc) : M (list cell) := fun σ =>
  match σ !! l with
  | Some (Row cs) => Ok (cs, σ)
  | _ => Raise TypeError
  end.

Definition get_rows (l : loc) : M (list loc) := fun σ =>
  match σ !! l with
  | Some (Rows rs) => Ok (rs, σ)
  | _ => Raise TypeError
  end.

Definition put_row (l : loc) (cs : list cell) : M unit := fun σ =>
  Ok (tt, <[l:=Row cs]> σ).

(** [r.copy()] *)
Definition row_copy (r : loc) : M loc :=
  cs ← get_row r; new_list (Row cs).

Fixpoint copy_each (rs : list loc) : M (list loc) :=
  match rs with
  | [] => mret []
  | r :: rs' => r' ← row_copy r; rest ← copy_each rs'; mret (r' :: rest)
  end.

(** [[r.copy() for r in board]] *)
Definition copy_rows (b : loc) : M loc :=
  rs ← get_rows b; rs' ← copy_each rs; new_list (Rows rs').

(** [b[row][col] = symbol] *)
Definition set_cell (b : loc) (row col : Z) (symbol : string) : M unit :=
  rs ← get_rows b;
  r ← lift (py_getitem rs row);
  cs ← get_row r;
  cs' ← lift (py_setitem cs col (Some symbol));
  put_row r cs'.

Definition apply_move (b : loc) (row col : Z) (symbol : string) : M loc :=
  new_board ← copy_rows b;
  _ ← set_cell new_board row col symbol;
  mret new_board.

Fixpoint load_each (rs : list loc) : M board :=
  match rs with
  | [] => mret []
  | r :: rs' => cs ← get_row r; rest ← load_each rs'; mret (cs :: rest)
  end.

(** The value a board object holds: the items of its rows.  The
    functions that only read ([check_winner], the subscripts of
    [best_ai_move]) are run on this value. *)
Definition load (b : loc) : M board :=
  rs ← get_rows b; load_each rs.

Definition wins_at (b : loc) (symbol : string) (rc : Z * Z) : M bool :=
  let '(r, c) := rc in
  v ← load b;
  x ← lift (cell_at v r c);
  if is_None x then
    temp ← copy_rows b;
    _ ← set_cell temp r c symbol;
    tv ← load temp;
    w ← lift (check_winner tv);
    mret (py_eq w (Some symbol))
  else mret false.

Fixpoint first_hit {A} (test : A -> M bool) (xs : list A) : M (option A) :=
  match xs with
  | [] => mret None
  | x :: xs' =>
      b ← test x;
      if b : bool then mret (Some x) else first_hit test xs'
  end.

Definition best_ai_move (b : loc) (ai_symbol user_symbol : string)
    (draw : nat) : M (Z * Z) :=
  win ← first_hit (wins_at b ai_symbol) cells;
  match win with
  | Some rc => mret rc
  | None =>
      block ← first_hit (wins_at b user_symbol) cells;
      match block with
      | Some rc => mret rc
      | None =>
          v ← load b;
          empty ← lift (filter_by (is_empty_at v) cells);
          match empty with
          | _ :: _ => lift (random_choice draw empty)
          | [] => lift (Raise no_moves_left)
          end
      end
  end.

(** Every object of [σ] is in [σ'], unchanged. *)
Definition preserved (σ σ' : store) : Prop := σ ⊆ σ'.

(** [b] names a board object of [σ] whose value is [v]. *)
Definition holds (σ : store) (b : loc) (v : board) : Prop :=
  load b σ = Ok (v, σ).

(** The row objects of a board. *)
Definition rows_of (σ : store) (b : loc) : list loc :=
  match σ !! b with
  | Some (Rows rs) => rs
  | _ => []
  end.

(** [r] names a row object with items [cs]. *)
Definition row_at (σ : store) (r : loc) (cs : list cell) : Prop :=
  σ !! r = Some (Row cs).

(** [m], run from [σ], does what the computation [r] on values does:
    the same answer or the same exception, and every object of [σ]
    is left as it was. *)
Definition refines {A} (σ : store) (m : M A) (r : result A) : Prop :=
  match r with
  | Ok a => exists σ', m σ = Ok (a, σ') /\ preserved σ σ'
  | Raise e => m σ = Raise e
  end.

End Heap.

(** ** Specification vocabulary *)

(** Cell [(r, c)] of a board, [None] where the board has no such cell. *)
Definition at_rc (b : board) (r c : nat) : cell :=
  match b !! r with
  | Some line => default None (line !! c)
  | None => None
  end.

(** The eight lines as the specification lists them: the rows from top to
    bottom, the columns from left to right, the diagonal and the
    anti-diagonal. *)
Definition spec_lines (b : board) : list row :=
  [ [at_rc b 0 0; at_rc b 0 1; at_rc b 0 2];
    [at_rc b 1 0; at_rc b 1 1; at_rc b 1 2];
    [at_rc b 2 0; at_rc b 2 1; at_rc b 2 2];
    [at_rc b 0 0; at_rc b 1 0; at_rc b 2 0];
    [at_rc b 0 1; at_rc b 1 1; at_rc b 2 1];
    [at_rc b 0 2; at_rc b 1 2; at_rc b 2 2];
    [at_rc b 0 0; at_rc b 1 1; at_rc b 2 2];
    [at_rc b 0 2; at_rc b 1 1; at_rc b 2 0] ]%nat.

(** The same eight lines in the order [check_winner] appends them. *)
Definition code_lines (b : board) : list row :=
  [ [at_rc b 0 0; at_rc b 0 1; at_rc b 0 2];
    [at_rc b 0 0; at_rc b 1 0; at_rc b 2 0];
    [at_rc b 1 0; at_rc b 1 1; at_rc b 1 2];
    [at_rc b 0 1; at_rc b 1 1; at_rc b 2 1];
    [at_rc b 2 0; at_rc b 2 1; at_rc b 2 2];
    [at_rc b 0 2; at_rc b 1 2; at_rc b 2 2];
    [at_rc b 0 0; at_rc b 1 1; at_rc b 2 2];
    [at_rc b 0 2; at_rc b 1 1; at_rc b 2 0] ]%nat.

(** All three cells of the line hold the symbol [s]. *)
Definition all_three (s : string) (line : row) : Prop :=
  line = [Some s; Some s; Some s].

Definition complete (line : row) : Prop := exists s, all_three s line.

(** Line number [i] of [ls] holds [s] three times and no line before it is
    complete. *)
Definition first_complete (ls : list row) (i : nat) (s : string) : Prop :=
  (exists line, ls !! i = Some line /\ all_three s line) /\
  forall j line, (j < i)%nat -> ls !! j = Some line -> ~ complete line.

Definition uniformb (line : row) : bool :=
  match line with
  | [x; y; z] => negb (is_None x) && py_eq x y && py_eq y z
  | _ => false
  end.

(** The first cell of the first complete line, [None] when there is none. *)
Definition winner_in (ls : list row) : cell :=
  match List.find uniformb ls with
  | Some (x :: _) => x
  | _ => None
  end.

Definition in_range (r c : Z) : Prop := 0 <= r < 3 /\ 0 <= c < 3.

(** Cell [(r, c)] is empty, and [s] placed there makes [check_winner]
    return [s]. *)
Definition winning_cell (b : board) (s : string) (r c : Z) : Prop :=
  in_range r c /\
  cell_at b r c = Ok None /\
  exists b', apply_move b r c s = Ok b' /\ check_winner b' = Ok (Some s).

(** Row-major order on cells. *)
Definition before (rc rc' : Z * Z) : Prop :=
  rc.1 < rc'.1 \/ (rc.1 = rc'.1 /\ rc.2 < rc'.2).

(** [(r, c)] is the first cell in row-major order on which [P] holds. *)
Definition first_cell (P : Z -> Z -> Prop) (r c : Z) : Prop :=
  P r c /\ forall r' c', P r' c' -> ~ before (r', c') (r, c).

Definition empty_cell (b : board) (r c : Z) : Prop :=
  in_range r c /\ cell_at b r c = Ok None.

(** The loop tests of [best_ai_move] as booleans, an exception read as
    [false]; on a 3x3 board the tests do not raise ([wins_at_total]). *)
Definition winsb (b : board) (s : string) (rc : Z * Z) : bool :=
  match wins_at b s rc with
  | Ok v => v
  | Raise _ => false
  end.

Definition emptyb (b : board) (rc : Z * Z) : bool :=
  match is_empty_at b rc with
  | Ok v => v
  | Raise _ => false
  end.

(** The turn after [n] moves of a game that [X] opens. *)
Definition turn_after (n : nat) : string :=
  if Nat.even n then "X" else "O".

(** ** Boards of the specification's scenarios *)

(** The board of the specification's third scenario. *)
Definition scenario_board : board :=
  [[Some "X"; Some "X"; None];
   [Some "O"; Some "O"; None];
   [None; None; None]].

(** A store with the scenario board in it, and its board object. *)
Definition scenario_store : Heap.store :=
  <[4%positive := Heap.Rows [1; 2; 3]%positive]>
    (<[3%positive := Heap.Row [None; None; None]]>
       (<[2%positive := Heap.Row [Some "O"; Some "O"; None]]>
          (<[1%positive := Heap.Row [Some "X"; Some "X"; None]]> ∅))).

(** The drawn game of the specification: full, no line. *)
Definition drawn_board : board :=
  [[Some "X"; Some "O"; Some "X"];
   [Some "X"; Some "O"; Some "O"];
   [Some "O"; Some "X"; Some "X"]].

(** A cell as the handlers fill it: empty, or one of the two marks. *)
Definition plain_cell (x : cell) : Prop :=
  x = None \/ x = Some "X" \/ x = Some "O".

(** ** [main.py]: the game handlers

    The games table is a finite map from primary key to row; a query by
    primary key followed by [.first()] is a lookup, and [db.commit()]
    writes to the map the fields of a row that the session sees changed.
    [moves] is a plain [JSON] column ([models_sql.py]): the session
    notices a new list assigned to it, not a list extended in place.
    A handler ends with its response, with an [HTTPException], or with an
    exception of the engine that nothing catches. *)

Module Main.

Inductive outcome (A : Type) : Type :=
| Done (a : A)
| HTTPException (status_code : Z) (detail : string)
| Crash (e : exn).
Arguments Done {A} a.
Arguments HTTPException {A} status_code detail.
Arguments Crash {A} e.

#[global] Instance outcome_ret : MRet outcome := fun A a => Done a.
#[global] Instance outcome_bind : MBind outcome := fun A B f m =>
  match m with
  | Done a => f a
  | HTTPException status detail => HTTPException status detail
  | Crash e => Crash e
  end.

(** A call into [game_logic]: what it raises is not caught. *)
Definition engine {A} (r : result A) : outcome A :=
  match r with
  | Ok a => Done a
  | Raise e => Crash e
  end.

(** A row of [games] ([models_sql.Game]), without its timestamp. *)
Record Game : Type := {
  user_x_id : option Z;
  user_o_id : option Z;
  moves : option (list move);
  winner : cell;
  is_pvp : bool
}.

(** [models.GameState] *)
Record GameState : Type := {
  gs_board : board;
  current_turn : string;
  is_over : bool;
  gs_winner : cell
}.

(** Truth value of an optional integer: [None] and [0] are false. *)
Definition truthy (x : option Z) : bool :=
  match x with
  | None => false
  | Some n => negb (n =? 0)
  end.

(** [x != y] between an optional integer and an integer. *)
Definition differs (x : option Z) (y : Z) : bool :=
  bool_decide (x <> Some y).

(** [game.moves or []] *)
Definition moves_or_empty (game : Game) : list move :=
  match moves game with
  | Some (m :: ms) => m :: ms
  | _ => []
  end.

(** The condition of the "Not your turn" rejection. *)
Definition not_your_turn (game : Game) (turn : string) (current_user : Z)
  : bool :=
  (String.eqb turn "X" && differs (user_x_id game) current_user)
  || (String.eqb turn "O" && truthy (user_o_id game)
      && differs (user_o_id game) current_user).

(** [winner is not None or is_board_full(board)] *)
Definition over (w : cell) (b : board) : bool :=
  negb (is_None w) || is_board_full b.

Definition start_game (games : gmap Z Game) (current_user : Z) (pvp : bool)
  : GameState * gmap Z Game :=
  let b := empty_board in
  let game := {| user_x_id := Some current_user;
                 user_o_id := if pvp then None else None;
                 moves := Some [];
                 winner := None;
                 is_pvp := pvp |} in
  let id := fresh (dom games) in
  ({| gs_board := b; current_turn := "X"; is_over := false;
      gs_winner := None |},
   <[id:=game]> games).

(** [game.moves = moves] followed by [db.commit()].  When the stored
    list is not empty, [game.moves or []] is the list object the session
    loaded; [moves.append] extends that object in place, and the
    assignment gives the attribute the object it already holds: no change
    is seen and the column is not written.  When the stored list is empty
    or missing, [game.moves or []] is a new list, and it is written. *)
Definition committed_moves (game : Game) (ms : list move)
  : option (list move) :=
  match moves game with
  | Some (_ :: _) => moves game
  | _ => Some ms
  end.

Definition make_move (games : gmap Z Game) (current_user : Z)
    (game_id row col : Z) (draw : nat) : outcome (GameState * gmap Z Game) :=
  match games !! game_id with
  | None => HTTPException 404 "Game not found"
  | Some game =>
      let ms := moves_or_empty game in
      '(b, turn) ← engine (rebuild ms);
      if not_your_turn game turn current_user then
        HTTPException 403 "Not your turn"
      else
        ok ← engine (validate_move b row col);
        if negb ok then HTTPException 400 "Invalid move"
        else
          let ms := ms ++ [Move row col turn] in
          b ← engine (apply_move b row col turn);
          w ← engine (check_winner b);
          let fin := over w b in
          '(ms, b, w, fin) ←
            (if negb (is_pvp game) && negb fin
                && String.eqb (next_turn turn) "O"
             then
               '(ai_row, ai_col) ← engine (best_ai_move b "O" "X" draw);
               let ms := ms ++ [Move ai_row ai_col "O"] in
               b ← engine (apply_move b ai_row ai_col "O");
               w ← engine (check_winner b);
               Done (ms, b, w, over w b)
             else Done (ms, b, w, fin)
             : outcome (list move * board * cell * bool));
          let game' := {| user_x_id := user_x_id game;
                          user_o_id := user_o_id game;
                          moves := committed_moves game ms;
                          winner := w;
                          is_pvp := is_pvp game |} in
          Done ({| gs_board := b;
                   current_turn :=
                     if negb fin then next_turn turn else turn;
                   is_over := fin;
                   gs_winner := w |},
                <[game_id:=game']> games)
  end.

(** The moves [ms], replayed from the empty board, were each made on an
    empty cell in range by the player whose turn it was, and give [b]. *)
Inductive replays : list move -> board -> Prop :=
| replays_nil : replays [] empty_board
| replays_snoc ms b r c b' :
    replays ms b ->
    validate_move b r c = Ok true ->
    apply_move b r c (turn_after (length ms)) = Ok b' ->
    replays (ms ++ [Move r c (turn_after (length ms))]) b'.

(** A row of [games] as the handlers leave it: a history that replays,
    and the winner [check_winner] finds on the board it gives. *)
Definition consistent (game : Game) (b : board) : Prop :=
  replays (moves_or_empty game) b /\ check_winner b = Ok (winner game).

(** The row [make_move] leaves in the table when it has played [ms]
    and found the winner [w]. *)
Definition updated (game : Game) (ms : list move) (w : cell) : Game :=
  {| user_x_id := user_x_id game;
     user_o_id := user_o_id game;
     moves := committed_moves game ms;
     winner := w;
     is_pvp := is_pvp game |}.

(** Number of cells that hold the mark [s]. *)
Definition marks (s : string) (b : board) : nat :=
  length (filter (fun x : cell => x = Some s) (concat b)).

(** Replaying [ms] onto [b] as moves number [n], [n + 1], ..., with the
    checks of [replays] made by evaluation. *)
Fixpoint replay_onto (b : board) (n : nat) (ms : list move) : option board :=
  match ms with
  | [] => Some b
  | m :: ms' =>
      match validate_move b (m_row m) (m_col m),
            apply_move b (m_row m) (m_col m) (m_player m) with
      | Ok true, Ok b' =>
          if String.eqb (m_player m) (turn_after n)
          then replay_onto b' (S n) ms'
          else None
      | _, _ => None
      end
  end.

(** Number of cells that are not [None]. *)
Definition occupied (b : board) : nat :=
  length (List.filter (fun x => negb (is_None x)) (concat b)).

(** A row of [users] ([models_sql.User]). *)
Record User : Type := {
  u_id : Z;
  username : string;
  hashed_password : string
}.

(** [models.UserStats] *)
Record UserStats : Type := {
  us_username : string;
  games_played : Z;
  wins : Z;
  draws : Z;
  losses : Z
}.

(** [db.query(Game).all()]: the rows of the table, in the table's order. *)
Definition game_rows (games : gmap Z Game) : list Game :=
  (map_to_list games).*2.

(** [(Game.user_x_id == user_id) | (Game.user_o_id == user_id)] *)
Definition plays (user_id : Z) (g : Game) : Prop :=
  user_x_id g = Some user_id \/ user_o_id g = Some user_id.

#[global] Instance plays_dec user_id g : Decision (plays user_id g).
Proof. unfold plays. apply _. Defined.

(** The body of the loop of [user_stats]. *)
Definition tally (user_id : Z) (acc : Z * Z * Z) (g : Game) : Z * Z * Z :=
  let '(wins, draws, losses) := acc in
  let user_symbol : cell :=
    if bool_decide (user_x_id g = Some user_id) then Some "X"
    else if bool_decide (user_o_id g = Some user_id) then Some "O"
    else None in
  if py_eq (winner g) user_symbol then (wins + 1, draws, losses)
  else if is_None (winner g) then (wins, draws + 1, losses)
  else if bool_decide (winner g ∈ [Some "X"; Some "O"])
       then (wins, draws, losses + 1)
       else (wins, draws, losses).

Definition user_stats (games : gmap Z Game) (current_user : User)
  : UserStats :=
  let user_id := u_id current_user in
  let gs := filter (plays user_id) (game_rows games) in
  let '(wins, draws, losses) := foldl (tally user_id) (0, 0, 0) gs in
  {| us_username := username current_user;
     games_played := Z.of_nat (length gs);
     wins := wins;
     draws := draws;
     losses := losses |}.

(** [models.UserRegister] and [models.UserOut] *)
Record UserRegister : Type := { reg_username : string; reg_password : string }.
Record UserOut : Type := { out_id : Z; out_username : string }.

(** [db.query(User).all()] *)
Definition user_rows (users : gmap Z User) : list User :=
  (map_to_list users).*2.

(** [get_password_hash] belongs to [security.py], which is not part of
    the sources: it is a parameter. *)
Definition register_user (get_password_hash : string -> string)
    (users : gmap Z User) (reg : UserRegister)
  : outcome (UserOut * gmap Z User) :=
  let existing :=
    head (filter (fun u => username u = reg_username reg) (user_rows users)) in
  match existing with
  | Some _ => HTTPException 409 "Username taken"
  | None =>
      let id := fresh (dom users) in
      let user := {| u_id := id;
                     username := reg_username reg;
                     hashed_password :=
                       get_password_hash (reg_password reg) |} in
      Done ({| out_id := u_id user; out_username := username user |},
            <[id:=user]> users)
  end.

(** A Python [dict] from names to counts: the items in insertion order,
    one per key. *)
Definition dict : Type := list (string * Z).

(** [d[k] = v]: a key already there keeps its place. *)
Fixpoint dict_set (d : dict) (k : string) (v : Z) : dict :=
  match d with
  | [] => [(k, v)]
  | (k', v') :: d' =>
      if String.eqb k' k then (k', v) :: d' else (k', v') :: dict_set d' k v
  end.

(** [d[k]], [None] standing for [KeyError]. *)
Fixpoint dict_get (d : dict) (k : string) : option Z :=
  match d with
  | [] => None
  | (k', v') :: d' => if String.eqb k' k then Some v' else dict_get d' k
  end.

Definition key_error : exn := Exception "KeyError".

(** [d[k] += 1] *)
Definition dict_incr (d : dict) (k : string) : outcome dict :=
  match dict_get d k with
  | Some v => Done (dict_set d k (v + 1))
  | None => Crash key_error
  end.

(** [sorted(items, key=lambda iv: -iv[1])]: [sorted] is stable, an item
    goes before the first later item whose key is not smaller. *)
Fixpoint insert_sorted (x : string * Z) (l : list (string * Z))
  : list (string * Z) :=
  match l with
  | [] => [x]
  | y :: l' =>
      if (- x.2 <=? - y.2) then x :: y :: l' else y :: insert_sorted x l'
  end.

Definition sorted_by_wins (items : list (string * Z)) : list (string * Z) :=
  foldr insert_sorted [] items.

(** [models.LeaderboardEntry] *)
Record LeaderboardEntry : Type := { le_username : string; le_wins : Z }.

(** One of the two [if] blocks of the loop of [leaderboard]: the winner
    is [symbol], the player's id is set, and the user is found. *)
Definition credit (users : gmap Z User) (symbol : string)
    (player : option Z) (g : Game) (win_counts : dict) : outcome dict :=
  if py_eq (winner g) (Some symbol) && truthy player then
    match player ≫= (users !!.) with
    | Some u => dict_incr win_counts (username u)
    | None => Done win_counts
    end
  else Done win_counts.

Fixpoint credit_all (users : gmap Z User) (gs : list Game) (win_counts : dict)
  : outcome dict :=
  match gs with
  | [] => Done win_counts
  | g :: gs' =>
      d ← credit users "X" (user_x_id g) g win_counts;
      d ← credit users "O" (user_o_id g) g d;
      credit_all users gs' d
  end.

Definition leaderboard (users : gmap Z User) (games : gmap Z Game)
  : outcome (list LeaderboardEntry) :=
  let all_users := user_rows users in
  let win_counts := foldl (fun d u => dict_set d (username u) 0) [] all_users in
  let games :=
    filter (fun g => winner g ∈ [Some "X"; Some "O"]) (game_rows games) in
  win_counts ← credit_all users games win_counts;
  Done ((fun '(k, v) => {| le_username := k; le_wins := v |})
          <$> sorted_by_wins win_counts).

(** No two rows of [users] carry the same name. *)
Definition unique_names (users : gmap Z User) : Prop :=
  forall i j u v,
    users !! i = Some u -> users !! j = Some v ->
    username u = username v -> i = j.

(** The name one [if] block of the loop of [leaderboard] adds a win to,
    if any, and the names one game adds a win to. *)
Definition credited_as (users : gmap Z User) (symbol : string)
    (player : option Z) (g : Game) : list string :=
  if py_eq (winner g) (Some symbol) && truthy player
  then match player ≫= (users !!.) with
       | Some u => [username u]
       | None => []
       end
  else [].

Definition credited (users : gmap Z User) (g : Game) : list string :=
  credited_as users "X" (user_x_id g) g
  ++ credited_as users "O" (user_o_id g) g.

(** How often [k] occurs in [ks]. *)
Definition occurrences (k : string) (ks : list string) : Z :=
  Z.of_nat (length (filter (fun k' => k' = k) ks)).

(** An item of the dictionary as an entry of the response. *)
Definition entry (kv : string * Z) : LeaderboardEntry :=
  {| le_username := kv.1; le_wins := kv.2 |}.

(** The games a user started, and among them those with winner [w]. *)
Definition started_by (user_id : Z) (games : gmap Z Game) : list Game :=
  filter (fun g => user_x_id g = Some user_id) (game_rows games).

Definition with_winner (w : cell) (gs : list Game) : list Game :=
  filter (fun g => winner g = w) gs.

(** [models.Move(row=..., col=..., player=...)]: the two coordinates are
    declared with [ge=0, le=2], and the constructor raises a validation
    error outside these bounds. *)
Definition validation_error : exn := Exception "ValidationError".

Definition new_Move (row col : Z) (player : string) : outcome move :=
  if (0 <=? row) && (row <=? 2) && ((0 <=? col) && (col <=? 2))
  then Done (Move row col player)
  else Crash validation_error.

Fixpoint new_Moves (ms : list move) : outcome (list move) :=
  match ms with
  | [] => Done []
  | m :: ms' =>
      m' ← new_Move (m_row m) (m_col m) (m_player m);
      rest ← new_Moves ms';
      Done (m' :: rest)
  end.

(** The [moves] field of the records of [my_games] and [all_games]: one
    [Move] object built from each stored move when [g.moves] is not
    empty, the empty list otherwise. *)
Definition record_moves (g : Game) : outcome (list move) :=
  match moves g with
  | Some (m :: ms) => new_Moves (m :: ms)
  | _ => Done []
  end.

(** The tables [start_game] and [make_move] can produce, from the empty
    table.  No other handler writes to [games]. *)
Inductive reachable : gmap Z Game -> Prop :=
| reachable_empty : reachable ∅
| reachable_start games current_user pvp :
    reachable games ->
    reachable (start_game games current_user pvp).2
| reachable_move games current_user game_id row col draw st games' :
    reachable games ->
    make_move games current_user game_id row col draw = Done (st, games') ->
    reachable games'.

End Main.

(** The history of a row of a table the handlers produced: empty, the
    first move of a game between two players, or the first move of a game
    against the selector and the reply. *)
Definition first_moves (g : Main.Game) : Prop :=
  Main.moves_or_empty g = [] \/
  (Main.is_pvp g = true /\
   exists r c, Main.moves_or_empty g = [Move r c "X"]) \/
  (Main.is_pvp g = false /\
   exists r c r' c',
     Main.moves_or_empty g = [Move r c "X"; Move r' c' "O"]).

(** [X] has won on the middle row after five moves; [O] is to move. *)
Definition finished_game : Main.Game :=
  {| Main.user_x_id := Some 1;
     Main.user_o_id := None;
     Main.moves := Some [Move 1 0 "X"; Move 0 0 "O"; Move 1 1 "X";
                         Move 0 1 "O"; Move 1 2 "X"];
     Main.winner := Some "X";
     Main.is_pvp := true |}.

Definition finished_board : board :=
  [[Some "O"; Some "O"; None];
   [Some "X"; Some "X"; Some "X"];
   [None; None; None]].


(** A drawn game: nine moves, no line. *)
Definition drawn_game : Main.Game :=
  {| Main.user_x_id := Some 1;
     Main.user_o_id := None;
     Main.moves := Some [Move 0 0 "X"; Move 0 1 "O"; Move 0 2 "X";
                         Move 1 1 "O"; Move 1 0 "X"; Move 1 2 "O";
                         Move 2 1 "X"; Move 2 0 "O"; Move 2 2 "X"];
     Main.winner := None;
     Main.is_pvp := true |}.

(** The table after [start_game] by user 1 against the selector and the
    opening move in the centre. *)
Definition played_table : gmap Z Main.Game :=
  match Main.make_move (Main.start_game ∅ 1 false).2 1
          (fresh (dom (∅ : gmap Z Main.Game))) 1 1 0 with
  | Main.Done (_, games) => games
  | _ => ∅
  end.

(** * Verification *)

(** ** Shape of a board *)

Lemma board3x3_inv (b : board) :
  board3x3 b ->
  exists a0 a1 a2 b0 b1 b2 c0 c1 c2 : cell,
    b = [[a0; a1; a2]; [b0; b1; b2]; [c0; c1; c2]].
Proof.
  intros [Hlen Hrows].
  destruct b as [|r0 [|r1 [|r2 [|? ?]]]]; try discriminate.
  repeat match goal with
         | H : Forall _ (_ :: _) |- _ => apply Forall_cons in H; destruct H
         end.
  destruct r0 as [|? [|? [|? [|? ?]]]]; try discriminate.
  destruct r1 as [|? [|? [|? [|? ?]]]]; try discriminate.
  destruct r2 as [|? [|? [|? [|? ?]]]]; try discriminate.
  by repeat eexists.
Qed.

Lemma board3x3_intro (a0 a1 a2 b0 b1 b2 c0 c1 c2 : cell) :
  board3x3 [[a0; a1; a2]; [b0; b1; b2]; [c0; c1; c2]].
Proof. split; [done | by repeat constructor]. Qed.

Lemma three_cases (r : Z) : 0 <= r < 3 -> r = 0 \/ r = 1 \/ r = 2.
Proof. lia. Qed.

Lemma neg_three_cases (r : Z) : -3 <= r < 0 -> r = -3 \/ r = -2 \/ r = -1.
Proof. lia. Qed.

(** Split a coordinate known to lie in [0, 3) into its three values. *)
Ltac split3 r :=
  match goal with
  | H : 0 <= r < 3 |- _ =>
      apply three_cases in H; destruct H as [-> | [-> | ->]]
  end.

Ltac explicit_board b :=
  match goal with
  | H : board3x3 b |- _ =>
      destruct (board3x3_inv b H)
        as (?a & ?a & ?a & ?a & ?a & ?a & ?a & ?a & ?a & ->)
  end.

(** ** [next_turn] *)

Lemma next_turn_X : next_turn "X" = "O".
Proof. reflexivity. Qed.

Lemma next_turn_not_X (s : string) : s <> "X" -> next_turn s = "X".
Proof.
  intros Hs. unfold next_turn.
  destruct (String.eqb_spec s "X"); [contradiction | reflexivity].
Qed.

Lemma next_turn_turn_after (n : nat) :
  next_turn (turn_after n) = turn_after (S n).
Proof.
  unfold turn_after. rewrite Nat.even_succ, <- Nat.negb_even.
  by destruct (Nat.even n).
Qed.

(** ** Subscripts *)

Lemma py_pos_nonneg (n : nat) (i : Z) :
  0 <= i < Z.of_nat n -> py_pos n i = Some (Z.to_nat i).
Proof.
  intros Hi. unfold py_pos.
  destruct (Z.ltb_spec i 0); [lia |].
  destruct (Z.leb_spec 0 i); [| lia].
  destruct (Z.ltb_spec i (Z.of_nat n)); [done | lia].
Qed.

Lemma py_pos_neg (n : nat) (i : Z) :
  - Z.of_nat n <= i < 0 -> py_pos n i = py_pos n (i + Z.of_nat n).
Proof.
  intros Hi. rewrite (py_pos_nonneg n (i + Z.of_nat n)) by lia.
  unfold py_pos.
  destruct (Z.ltb_spec i 0); [| lia].
  destruct (Z.leb_spec 0 (i + Z.of_nat n)); [| lia].
  destruct (Z.ltb_spec (i + Z.of_nat n) (Z.of_nat n)); [done | lia].
Qed.

Lemma py_pos_lt (n : nat) (i : Z) (k : nat) :
  py_pos n i = Some k -> (k < n)%nat.
Proof.
  unfold py_pos. intros H.
  destruct (_ && _) eqn:E; [| discriminate].
  apply andb_prop in E as [E1 E2].
  apply Z.leb_le in E1. apply Z.ltb_lt in E2.
  injection H as <-. lia.
Qed.

Lemma py_getitem_Ok {A} (l : list A) (i : Z) (x : A) :
  py_getitem l i = Ok x <->
  exists k, py_pos (length l) i = Some k /\ l !! k = Some x.
Proof.
  unfold py_getitem. split.
  - destruct (py_pos _ _) as [k|]; [| discriminate].
    destruct (l !! k) eqn:E; [| discriminate].
    intros [= ->]. eauto.
  - intros (k & -> & ->). done.
Qed.

Lemma py_getitem_neg {A} (l : list A) (i : Z) :
  - Z.of_nat (length l) <= i < 0 ->
  py_getitem l i = py_getitem l (i + Z.of_nat (length l)).
Proof. intros Hi. unfold py_getitem. by rewrite py_pos_neg. Qed.

Lemma py_setitem_neg {A} (l : list A) (i : Z) (x : A) :
  - Z.of_nat (length l) <= i < 0 ->
  py_setitem l i x = py_setitem l (i + Z.of_nat (length l)) x.
Proof. intros Hi. unfold py_setitem. by rewrite py_pos_neg. Qed.

Lemma copy_rows_id (b : board) : copy_rows b = b.
Proof. unfold copy_rows. apply list_fmap_id. Qed.

(** ** [validate_move] and [apply_move] on board values *)

Lemma cell_at_total (b : board) (r c : Z) :
  board3x3 b -> in_range r c -> exists x, cell_at b r c = Ok x.
Proof.
  intros Hb [Hr Hc]. explicit_board b. split3 r; split3 c; by eexists.
Qed.

Lemma validate_move_out_of_range (b : board) (row col : Z) :
  row < 0 \/ row > 2 \/ col < 0 \/ col > 2 ->
  validate_move b row col = Ok false.
Proof.
  intros H. unfold validate_move.
  destruct (Z.leb_spec 0 row), (Z.ltb_spec row 3),
    (Z.leb_spec 0 col), (Z.ltb_spec col 3); simpl; try done; lia.
Qed.

Lemma validate_move_in_range (b : board) (row col : Z) :
  in_range row col ->
  validate_move b row col = (c ← cell_at b row col; Ok (is_None c)).
Proof.
  intros [Hr Hc]. unfold validate_move.
  destruct (Z.leb_spec 0 row), (Z.ltb_spec row 3),
    (Z.leb_spec 0 col), (Z.ltb_spec col 3); simpl; try done; lia.
Qed.

Lemma apply_move_in_range (b : board) (r c : Z) (s : string) :
  board3x3 b -> in_range r c ->
  exists b',
    apply_move b r c s = Ok b' /\ board3x3 b' /\
    cell_at b' r c = Ok (Some s) /\
    forall r' c', in_range r' c' -> (r', c') <> (r, c) ->
                  cell_at b' r' c' = cell_at b r' c'.
Proof.
  intros Hb [Hr Hc]. explicit_board b.
  split3 r; split3 c;
    (eexists; split; [reflexivity |]; split; [apply board3x3_intro |];
     split; [reflexivity |];
     intros r' c' [Hr' Hc'] Hne; split3 r'; split3 c';
     first [reflexivity | congruence]).
Qed.

(** ** [check_winner] *)

Lemma py_eq_true (a b : cell) : py_eq a b = true <-> a = b.
Proof. unfold py_eq. apply bool_decide_eq_true. Qed.

Lemma uniformb_complete (line : row) :
  uniformb line = true <-> complete line.
Proof.
  unfold complete, all_three. split.
  - destruct line as [|x [|y [|z [|? ?]]]]; simpl; try discriminate.
    intros H. apply andb_prop in H as [H Hyz]. apply andb_prop in H as [Hx Hxy].
    apply py_eq_true in Hyz, Hxy. subst.
    destruct z as [s|]; [| discriminate]. by exists s.
  - intros [s ->]. simpl. unfold py_eq.
    by rewrite !bool_decide_eq_true_2.
Qed.

Lemma line_complete_3 (x y z : cell) :
  line_complete [x; y; z] = Ok (uniformb [x; y; z]).
Proof.
  destruct x as [s|]; [| reflexivity].
  unfold line_complete. simpl. by destruct (py_eq (Some s) y).
Qed.

Lemma first_hit_find {A} (test : A -> result bool) (p : A -> bool)
    (xs : list A) :
  (forall x, x ∈ xs -> test x = Ok (p x)) ->
  first_hit test xs = Ok (List.find p xs).
Proof.
  induction xs as [|x xs IH]; intros H; [reflexivity |].
  simpl. rewrite (H x) by left. simpl.
  destruct (p x); [reflexivity |].
  apply IH. intros y Hy. apply H. by right.
Qed.

Lemma build_lines_3x3 (a0 a1 a2 b0 b1 b2 c0 c1 c2 : cell) :
  let b := [[a0; a1; a2]; [b0; b1; b2]; [c0; c1; c2]] in
  build_lines b = Ok (code_lines b).
Proof. reflexivity. Qed.

Lemma lines_have_three_cells (b : board) (line : row) :
  line ∈ code_lines b -> exists x y z, line = [x; y; z].
Proof.
  unfold code_lines. intros H.
  repeat (apply elem_of_cons in H as [-> | H]; [by repeat eexists |]).
  by apply elem_of_nil in H.
Qed.

Lemma check_winner_winner_in (b : board) :
  board3x3 b -> check_winner b = Ok (winner_in (code_lines b)).
Proof.
  intros Hb. explicit_board b. unfold check_winner.
  rewrite build_lines_3x3. cbn [mbind result_bind].
  rewrite (first_hit_find _ uniformb).
  - cbn [mbind result_bind]. unfold winner_in.
    destruct (List.find uniformb _) as [line|] eqn:E; [| reflexivity].
    apply find_some in E as [Hin _]. apply list_elem_of_In in Hin.
    apply lines_have_three_cells in Hin as (x & y & z & ->). reflexivity.
  - intros line Hin.
    apply lines_have_three_cells in Hin as (x & y & z & ->).
    apply line_complete_3.
Qed.

Lemma check_winner_total (b : board) :
  board3x3 b -> exists w, check_winner b = Ok w.
Proof. intros Hb. rewrite check_winner_winner_in by done. eauto. Qed.

(** A complete row and a complete column cross, so they hold the same
    symbol: taking the columns after the rows, as the specification lists
    the lines, or interleaved with them, as the code builds the list,
    gives the same winner. *)
Lemma winner_in_order (b : board) :
  winner_in (code_lines b) = winner_in (spec_lines b).
Proof.
  unfold winner_in, code_lines, spec_lines. cbn [List.find].
  generalize (at_rc b 0 0) (at_rc b 0 1) (at_rc b 0 2)
    (at_rc b 1 0) (at_rc b 1 1) (at_rc b 1 2)
    (at_rc b 2 0) (at_rc b 2 1) (at_rc b 2 2).
  intros a0 a1 a2 b0 b1 b2 c0 c1 c2.
  destruct (uniformb [a0; a1; a2]) eqn:R0; [reflexivity |].
  destruct (uniformb [a0; b0; c0]) eqn:C0;
    destruct (uniformb [b0; b1; b2]) eqn:R1;
    destruct (uniformb [a1; b1; c1]) eqn:C1;
    destruct (uniformb [c0; c1; c2]) eqn:R2;
    destruct (uniformb [a2; b2; c2]) eqn:C2;
    cbn [List.find]; try reflexivity;
    repeat match goal with
           | H : uniformb _ = true |- _ =>
               apply uniformb_complete in H as [? H]; unfold all_three in H
           end;
    by simplify_eq.
Qed.

Lemma winner_in_Some (ls : list row) (s : string) :
  winner_in ls = Some s <-> exists i, first_complete ls i s.
Proof.
  unfold winner_in, first_complete. induction ls as [|l ls IH].
  - split; [discriminate |]. intros (i & (line & H & _) & _).
    by rewrite lookup_nil in H.
  - simpl. destruct (uniformb l) eqn:E.
    + pose proof E as [t Ht]%uniformb_complete. split.
      * intros H. exists 0%nat. split; [| lia].
        exists l. split; [reflexivity |].
        rewrite Ht in *. by injection H as ->.
      * intros ([|i] & (line & Hl & Hs) & Hmin).
        -- injection Hl as ->. by rewrite Hs.
        -- exfalso. apply (Hmin 0%nat l); [lia | done | by exists t].
    + rewrite IH. split.
      * intros (i & (line & Hl & Hs) & Hmin). exists (S i). split.
        -- by exists line.
        -- intros [|j] line' Hj Hl'.
           ++ injection Hl' as <-. intros Hc%uniformb_complete. congruence.
           ++ apply (Hmin j); [lia | done].
      * intros ([|i] & (line & Hl & Hs) & Hmin).
        -- injection Hl as ->.
           assert (uniformb line = true) by (apply uniformb_complete; by exists s).
           congruence.
        -- exists i. split; [by exists line |].
           intros j line' Hj Hl'. apply (Hmin (S j)); [lia | done].
Qed.

Lemma winner_in_None (ls : list row) :
  winner_in ls = None <-> forall line, line ∈ ls -> ~ complete line.
Proof.
  unfold winner_in. induction ls as [|l ls IH].
  - split; [| done]. intros _ line H. by apply elem_of_nil in H.
  - simpl. destruct (uniformb l) eqn:E.
    + pose proof E as [t Ht]%uniformb_complete. split.
      * rewrite Ht. discriminate.
      * intros H. exfalso. apply (H l); [by left | by exists t].
    + rewrite IH. split.
      * intros H line [-> | Hin]%elem_of_cons; [| by apply H].
        intros Hc%uniformb_complete. congruence.
      * intros H line Hin. apply H. by right.
Qed.

(** ** [best_ai_move] *)

Lemma cell_at_at_rc (b : board) (r c : Z) :
  board3x3 b -> in_range r c ->
  cell_at b r c = Ok (at_rc b (Z.to_nat r) (Z.to_nat c)).
Proof.
  intros Hb [Hr Hc]. explicit_board b. by split3 r; split3 c.
Qed.

Lemma elem_of_cells (r c : Z) : (r, c) ∈ cells <-> in_range r c.
Proof.
  unfold in_range. change cells with
    [(0, 0); (0, 1); (0, 2); (1, 0); (1, 1); (1, 2); (2, 0); (2, 1); (2, 2)].
  rewrite !elem_of_cons, elem_of_nil. split.
  - intros H. repeat (destruct H as [[= -> ->] | H]; [lia |]). done.
  - intros [Hr Hc]. split3 r; split3 c; tauto.
Qed.

Lemma find_cells_first (p : Z * Z -> bool) (r c : Z) :
  List.find p cells = Some (r, c) ->
  in_range r c /\ p (r, c) = true /\
  forall r' c', in_range r' c' -> p (r', c') = true ->
                ~ before (r', c') (r, c).
Proof.
  change cells with
    [(0, 0); (0, 1); (0, 2); (1, 0); (1, 1); (1, 2); (2, 0); (2, 1); (2, 2)].
  cbn [List.find]. unfold in_range, before.
  repeat (match goal with
          | |- context [if p ?x then _ else _] => destruct (p x) eqn:?
          end;
          [ intros [= <- <-]; split; [lia |]; split; [done |];
            intros r' c' [Hr Hc] Hp; split3 r'; split3 c';
            simpl; first [congruence | lia] |]).
  discriminate.
Qed.

Lemma find_all_false {A} (p : A -> bool) (xs : list A) :
  List.find p xs = None <-> forall x, x ∈ xs -> p x = false.
Proof.
  induction xs as [|x xs IH]; simpl.
  - split; [| done]. intros _ y Hy. by apply elem_of_nil in Hy.
  - destruct (p x) eqn:E.
    + split; [discriminate |]. intros H. rewrite (H x) in E by left. done.
    + rewrite IH. split.
      * intros H y [-> | Hy]%elem_of_cons; auto.
      * intros H y Hy. apply H. by right.
Qed.

Lemma filter_by_filter {A} (test : A -> result bool) (p : A -> bool)
    (xs : list A) :
  (forall x, x ∈ xs -> test x = Ok (p x)) ->
  filter_by test xs = Ok (List.filter p xs).
Proof.
  induction xs as [|x xs IH]; intros H; [reflexivity |].
  simpl. rewrite (H x) by left. rewrite IH.
  - simpl. by destruct (p x).
  - intros y Hy. apply H. by right.
Qed.

Lemma random_choice_elem {A} (draw : nat) (seq : list A) :
  seq <> [] -> exists x, random_choice draw seq = Ok x /\ x ∈ seq.
Proof.
  intros Hne. unfold random_choice.
  assert (draw mod length seq < length seq)%nat as Hlt.
  { apply Nat.mod_upper_bound. by destruct seq. }
  destruct (lookup_lt_is_Some_2 seq _ Hlt) as [x Hx].
  exists x. split.
  - apply py_getitem_Ok. exists (draw mod length seq)%nat. split; [| done].
    rewrite py_pos_nonneg by lia. by rewrite Nat2Z.id.
  - apply list_elem_of_lookup. eauto.
Qed.

Lemma wins_at_true (b : board) (s : string) (r c : Z) :
  wins_at b s (r, c) = Ok true <->
  cell_at b r c = Ok None /\
  exists b', apply_move b r c s = Ok b' /\ check_winner b' = Ok (Some s).
Proof.
  unfold wins_at, apply_move. split.
  - destruct (cell_at b r c) as [[t|]|]; simpl; try discriminate.
    destruct (set_cell (copy_rows b) r c s) as [b'|]; simpl; [| discriminate].
    destruct (check_winner b') as [w|] eqn:Hcw; simpl; [| discriminate].
    intros [= Hw%py_eq_true]. subst. eauto.
  - intros (-> & b' & -> & Hw). simpl. rewrite Hw. simpl.
    f_equal. by apply py_eq_true.
Qed.

Lemma wins_at_total (b : board) (s : string) (r c : Z) :
  board3x3 b -> in_range r c -> exists v, wins_at b s (r, c) = Ok v.
Proof.
  intros Hb Hrc. unfold wins_at.
  destruct (cell_at_total b r c Hb Hrc) as [x ->]. simpl.
  destruct (is_None x); [| by eexists].
  destruct (apply_move_in_range b r c s Hb Hrc) as (b' & Hb' & H3 & _).
  unfold apply_move in Hb'. rewrite Hb'. simpl.
  destruct (check_winner_total b' H3) as [w ->]. by eexists.
Qed.

Lemma wins_at_winsb (b : board) (s : string) (rc : Z * Z) :
  board3x3 b -> rc ∈ cells -> wins_at b s rc = Ok (winsb b s rc).
Proof.
  intros Hb Hin. destruct rc as [r c]. apply elem_of_cells in Hin.
  unfold winsb. by destruct (wins_at_total b s r c Hb Hin) as [v ->].
Qed.

Lemma winsb_winning_cell (b : board) (s : string) (r c : Z) :
  board3x3 b -> in_range r c ->
  winsb b s (r, c) = true <-> winning_cell b s r c.
Proof.
  intros Hb Hrc. unfold winning_cell. rewrite <- wins_at_true.
  rewrite (wins_at_winsb b s (r, c)) by (done || by apply elem_of_cells).
  split; [intros ->; done | intros (_ & [= ->]); done].
Qed.

Lemma is_empty_at_emptyb (b : board) (rc : Z * Z) :
  board3x3 b -> rc ∈ cells -> is_empty_at b rc = Ok (emptyb b rc).
Proof.
  intros Hb Hin. destruct rc as [r c]. apply elem_of_cells in Hin.
  unfold emptyb, is_empty_at.
  by destruct (cell_at_total b r c Hb Hin) as [x ->].
Qed.

Lemma emptyb_empty_cell (b : board) (r c : Z) :
  board3x3 b -> in_range r c ->
  emptyb b (r, c) = true <-> empty_cell b r c.
Proof.
  intros Hb Hrc. unfold empty_cell, emptyb, is_empty_at.
  destruct (cell_at_total b r c Hb Hrc) as [x ->]. simpl.
  destruct x; simpl; split; try done; intros [_ [=]].
Qed.

(** On a 3x3 board the three phases of [best_ai_move] are two searches
    and a filter over [cells]. *)
Lemma best_ai_move_phases (b : board) (ai user : string) (draw : nat) :
  board3x3 b ->
  best_ai_move b ai user draw =
  match List.find (winsb b ai) cells with
  | Some rc => Ok rc
  | None =>
      match List.find (winsb b user) cells with
      | Some rc => Ok rc
      | None =>
          match List.filter (emptyb b) cells with
          | (_ :: _) as empty => random_choice draw empty
          | [] => Raise no_moves_left
          end
      end
  end.
Proof.
  intros Hb. unfold best_ai_move.
  rewrite (first_hit_find (wins_at b ai) (winsb b ai)) by (intros; by apply wins_at_winsb).
  cbn [mbind result_bind]. destruct (List.find (winsb b ai) cells); [done |].
  rewrite (first_hit_find (wins_at b user) (winsb b user)) by (intros; by apply wins_at_winsb).
  cbn [mbind result_bind]. destruct (List.find (winsb b user) cells); [done |].
  rewrite (filter_by_filter _ (emptyb b))
    by (intros; by apply is_empty_at_emptyb).
  cbn [mbind result_bind]. by destruct (List.filter (emptyb b) cells).
Qed.

Lemma is_board_full_spec (b : board) :
  board3x3 b ->
  is_board_full b = true <-> forall r c, ~ empty_cell b r c.
Proof.
  intros Hb. explicit_board b. unfold empty_cell. simpl.
  rewrite !andb_true_r, !andb_true_iff, !negb_true_iff. split.
  - intros H r c [[Hr Hc] Hcell].
    split3 r; split3 c; cbv in Hcell; simplify_eq; simpl in H;
      intuition discriminate.
  - intros H.
    repeat split;
      match goal with
      | |- is_None ?x = false =>
          destruct x; [done | exfalso]
      end;
      [ apply (H 0 0) | apply (H 0 1) | apply (H 0 2)
      | apply (H 1 0) | apply (H 1 1) | apply (H 1 2)
      | apply (H 2 0) | apply (H 2 1) | apply (H 2 2) ];
      (split; [unfold in_range; lia | reflexivity]).
Qed.

(** ** The store: copies are fresh, updates stay in the copy *)

Ltac heap_unfold :=
  unfold Heap.holds, Heap.load, Heap.copy_rows, Heap.row_copy, Heap.set_cell,
    Heap.apply_move, Heap.new_list, Heap.get_row, Heap.get_rows,
    Heap.put_row, Heap.lift, Heap.preserved, Heap.row_at,
    mbind, mret, Heap.M_bind, Heap.M_ret in *.

Lemma load_each_rows (σ σ' : Heap.store) (rs : list Heap.loc) (v : board) :
  Heap.load_each rs σ = Ok (v, σ') <->
  σ' = σ /\ Forall2 (Heap.row_at σ) rs v.
Proof.
  revert v. induction rs as [|r rs IH]; intros v; simpl.
  - heap_unfold. split.
    + intros [= <- <-]. by split; [| constructor].
    + intros [-> H]. by inversion H.
  - heap_unfold. split.
    + destruct (σ !! r) as [[cs|?]|] eqn:E; try discriminate.
      destruct (Heap.load_each rs σ) as [[v' σ1]|] eqn:E' in |- *;
        [| discriminate].
      intros [= <- <-]. apply IH in E' as [-> H].
      split; [done |]. by constructor.
    + intros [-> H]. inversion H as [|? cs ? v' Hr Hrest]; subst.
      rewrite Hr. by rewrite (proj2 (IH v') (conj eq_refl Hrest)).
Qed.

Lemma holds_rows (σ : Heap.store) (b : Heap.loc) (v : board) :
  Heap.holds σ b v <->
  exists rs, σ !! b = Some (Heap.Rows rs) /\ Forall2 (Heap.row_at σ) rs v.
Proof.
  unfold Heap.holds, Heap.load, Heap.get_rows, mbind, Heap.M_bind. split.
  - destruct (σ !! b) as [[?|rs]|]; try discriminate.
    intros [_ H]%load_each_rows. eauto.
  - intros (rs & -> & H). by apply load_each_rows.
Qed.

Lemma rows_preserved (σ σ' : Heap.store) (rs : list Heap.loc) (v : board) :
  Heap.preserved σ σ' ->
  Forall2 (Heap.row_at σ) rs v -> Forall2 (Heap.row_at σ') rs v.
Proof.
  intros Hsub H. eapply Forall2_impl; [done |]. intros r cs Hr.
  unfold Heap.row_at in *. by eapply lookup_weaken.
Qed.

Lemma holds_preserved (σ σ' : Heap.store) (b : Heap.loc) (v : board) :
  Heap.preserved σ σ' -> Heap.holds σ b v -> Heap.holds σ' b v.
Proof.
  intros Hsub (rs & Hb & Hrs)%holds_rows. apply holds_rows.
  exists rs. split; [by eapply lookup_weaken | by eapply rows_preserved].
Qed.

Lemma new_list_fresh (σ : Heap.store) (o : Heap.obj) :
  exists l, Heap.new_list o σ = Ok (l, <[l:=o]> σ) /\ σ !! l = None.
Proof.
  exists (fresh (dom σ)). split; [reflexivity |].
  apply not_elem_of_dom. apply is_fresh.
Qed.

Lemma copy_each_fresh (σ : Heap.store) (rs : list Heap.loc) (v : board) :
  Forall2 (Heap.row_at σ) rs v ->
  exists rs' σ',
    Heap.copy_each rs σ = Ok (rs', σ') /\
    Heap.preserved σ σ' /\
    Forall2 (Heap.row_at σ') rs' v /\
    NoDup rs' /\
    Forall (fun r => σ !! r = None) rs'.
Proof.
  intros H. revert σ v H. induction rs as [|r rs IH]; intros σ v H.
  - inversion H; subst. exists [], σ. simpl.
    split; [done |]. split; [done |]. repeat split; constructor.
  - inversion H as [|? cs ? v' Hr Hrest]; subst. simpl.
    unfold Heap.row_copy, Heap.get_row, mbind, Heap.M_bind, mret, Heap.M_ret.
    unfold Heap.row_at in Hr. rewrite Hr.
    destruct (new_list_fresh σ (Heap.Row cs)) as (l & -> & Hl).
    assert (Heap.preserved σ (<[l:=Heap.Row cs]> σ)) as Hsub
      by (by apply insert_subseteq).
    destruct (IH (<[l:=Heap.Row cs]> σ) v')
      as (rs' & σ' & -> & Hsub' & Hrs' & Hnd & Hfresh).
    { eapply rows_preserved; [exact Hsub | done]. }
    exists (l :: rs'), σ'. split; [done |].
    split; [by etrans |].
    split.
    { constructor; [| done]. unfold Heap.row_at.
      eapply lookup_weaken; [| done]. apply lookup_insert_eq. }
    split.
    { constructor; [| done]. intros Hin.
      rewrite Forall_forall in Hfresh. specialize (Hfresh l Hin).
      by rewrite lookup_insert_eq in Hfresh. }
    constructor; [done |].
    eapply Forall_impl; [done |]. intros r' Hr'. simpl in Hr'.
    destruct (decide (l = r')) as [-> | Hne].
    + by rewrite lookup_insert_eq in Hr'.
    + by rewrite lookup_insert_ne in Hr'.
Qed.

Lemma copy_rows_fresh (σ : Heap.store) (b : Heap.loc) (v : board) :
  Heap.holds σ b v ->
  exists b' rs' σ',
    Heap.copy_rows b σ = Ok (b', σ') /\
    Heap.preserved σ σ' /\
    σ' !! b' = Some (Heap.Rows rs') /\
    Forall2 (Heap.row_at σ') rs' v /\
    NoDup rs' /\
    σ !! b' = None /\
    Forall (fun r => σ !! r = None) rs'.
Proof.
  intros (rs & Hb & Hrs)%holds_rows.
  destruct (copy_each_fresh σ rs v Hrs)
    as (rs' & σ1 & Hcopy & Hsub & Hrs' & Hnd & Hfresh).
  destruct (new_list_fresh σ1 (Heap.Rows rs')) as (b' & Hnew & Hb').
  exists b', rs', (<[b':=Heap.Rows rs']> σ1).
  assert (Heap.preserved σ1 (<[b':=Heap.Rows rs']> σ1)) as Hsub1
    by (by apply insert_subseteq).
  split.
  { unfold Heap.copy_rows, Heap.get_rows, mbind, Heap.M_bind.
    by rewrite Hb, Hcopy, Hnew. }
  split; [by etrans |].
  split; [apply lookup_insert_eq |].
  split; [eapply rows_preserved; [exact Hsub1 | done] |].
  split; [done |].
  split; [by eapply lookup_weaken_None | done].
Qed.

(** Item assignment on a board whose rows are pairwise distinct objects
    changes that board's value as [set_cell] says, and raises when
    [set_cell] raises. *)
Lemma set_cell_refines (σ : Heap.store) (b : Heap.loc) (rs : list Heap.loc)
    (v : board) (ri ci : Z) (s : string) :
  σ !! b = Some (Heap.Rows rs) ->
  Forall2 (Heap.row_at σ) rs v ->
  NoDup rs ->
  match set_cell v ri ci s with
  | Ok v' =>
      exists r cs',
        r ∈ rs /\ r <> b /\
        Heap.set_cell b ri ci s σ = Ok (tt, <[r:=Heap.Row cs']> σ) /\
        Heap.holds (<[r:=Heap.Row cs']> σ) b v'
  | Raise e => Heap.set_cell b ri ci s σ = Raise e
  end.
Proof.
  intros Hb Hrs Hnd.
  pose proof (Forall2_length _ _ _ Hrs) as Hlen.
  unfold set_cell, Heap.set_cell, Heap.get_rows, Heap.lift, Heap.get_row,
    Heap.put_row, py_getitem, py_setitem, mbind, Heap.M_bind, result_bind.
  unfold board, row, cell in *. rewrite Hb, Hlen.
  destruct (py_pos (length v) ri) as [k|] eqn:Hk; [| reflexivity].
  pose proof (py_pos_lt _ _ _ Hk) as Hlt.
  destruct (lookup_lt_is_Some_2 v k Hlt) as [line Hline].
  destruct (lookup_lt_is_Some_2 rs k ltac:(lia)) as [r Hr].
  rewrite Hline, Hr.
  assert (Heap.row_at σ r line) as Hrow
    by (by eapply Forall2_lookup_lr).
  unfold Heap.row_at in Hrow. rewrite Hrow.
  destruct (py_pos (length line) ci) as [j|] eqn:Hj; simpl; [| reflexivity].
  exists r, (<[j:=Some s]> line).
  assert (r <> b) as Hrb by (intros ->; congruence).
  split; [apply list_elem_of_lookup; eauto |].
  split; [done |].
  split; [reflexivity |].
  apply holds_rows. exists rs. split.
  - by rewrite lookup_insert_ne.
  - apply Forall2_same_length_lookup. split.
    + by rewrite length_insert.
    + intros i r' cs Hr' Hcs. unfold Heap.row_at.
      destruct (decide (i = k)) as [-> | Hne].
      * rewrite list_lookup_insert_eq in Hcs by done.
        injection Hcs as <-. replace r' with r by congruence.
        apply lookup_insert_eq.
      * rewrite list_lookup_insert_ne in Hcs by done.
        rewrite lookup_insert_ne.
        -- exact (Forall2_lookup_lr _ _ _ _ _ _ Hrs Hr' Hcs).
        -- intros ->. apply Hne. symmetry. by eapply NoDup_lookup.
Qed.

(** [Heap.apply_move] returns a board object that did not exist before,
    made of row objects that did not exist before, holding the value
    [apply_move] computes; every object of the initial store is unchanged. *)
Lemma apply_move_refines (σ : Heap.store) (b : Heap.loc) (v : board)
    (row col : Z) (s : string) :
  Heap.holds σ b v ->
  match apply_move v row col s with
  | Ok v' =>
      exists b' σ',
        Heap.apply_move b row col s σ = Ok (b', σ') /\
        Heap.preserved σ σ' /\
        Heap.holds σ' b' v' /\
        σ !! b' = None /\
        Forall (fun r => σ !! r = None) (Heap.rows_of σ' b')
  | Raise e => Heap.apply_move b row col s σ = Raise e
  end.
Proof.
  intros Hv.
  destruct (copy_rows_fresh σ b v Hv)
    as (b' & rs' & σ1 & Hcopy & Hsub & Hb' & Hrs' & Hnd & Hfb & Hfrs).
  pose proof (set_cell_refines σ1 b' rs' v row col s Hb' Hrs' Hnd) as Hset.
  unfold apply_move. rewrite copy_rows_id.
  unfold Heap.apply_move, mbind, Heap.M_bind, mret, Heap.M_ret.
  rewrite Hcopy.
  destruct (set_cell v row col s) as [v'|e]; [| by rewrite Hset].
  destruct Hset as (r & cs' & Hr & Hrb & -> & Hv').
  rewrite Forall_forall in Hfrs.
  exists b', (<[r:=Heap.Row cs']> σ1).
  split; [done |].
  split; [apply insert_subseteq_r; [by apply Hfrs | done] |].
  split; [done |].
  split; [done |].
  unfold Heap.rows_of. rewrite lookup_insert_ne by done.
  rewrite Hb'. by apply Forall_forall.
Qed.

(** ** [Heap.best_ai_move] does what [best_ai_move] does *)

Lemma refines_lift {A} (σ : Heap.store) (r : result A) :
  Heap.refines σ (Heap.lift r) r.
Proof.
  destruct r; simpl; [| done]. exists σ. by split.
Qed.

Lemma refines_bind {A B} (σ : Heap.store) (m : Heap.M A) (r : result A)
    (k : A -> Heap.M B) (f : A -> result B) (I : Heap.store -> Prop) :
  Heap.refines σ m r ->
  (forall σ', Heap.preserved σ σ' -> I σ') ->
  (forall a σ', I σ' -> Heap.refines σ' (k a) (f a)) ->
  Heap.refines σ (m ≫= k) (r ≫= f).
Proof.
  intros Hm HI Hk. unfold Heap.refines in *.
  destruct r as [a|e]; cbn [mbind result_bind].
  - destruct Hm as (σ1 & Hm & Hsub).
    specialize (Hk a σ1 (HI σ1 Hsub)).
    destruct (f a) as [y|e].
    + destruct Hk as (σ2 & Hk & Hsub2). exists σ2. split.
      * unfold mbind, Heap.M_bind. by rewrite Hm.
      * unfold Heap.preserved in *. by etrans.
    + unfold mbind, Heap.M_bind. by rewrite Hm.
  - unfold mbind, Heap.M_bind. by rewrite Hm.
Qed.

Lemma refines_load {A} (σ : Heap.store) (b : Heap.loc) (v : board)
    (k : board -> Heap.M A) (r : result A) :
  Heap.holds σ b v ->
  Heap.refines σ (k v) r -> Heap.refines σ (Heap.load b ≫= k) r.
Proof.
  intros Hv Hk. unfold Heap.holds in Hv.
  unfold Heap.refines, mbind, Heap.M_bind in *. by rewrite Hv.
Qed.

Lemma refines_ret {A} (σ : Heap.store) (a : A) :
  Heap.refines σ (mret a) (Ok a).
Proof. exists σ. by split. Qed.

(** The trial board of [best_ai_move]: a copy, one item assigned, then
    [check_winner] on the copy. *)
Lemma trial_refines (σ : Heap.store) (b : Heap.loc) (v : board)
    (r c : Z) (s : string) :
  Heap.holds σ b v ->
  Heap.refines σ
    (temp ← Heap.copy_rows b;
     _ ← Heap.set_cell temp r c s;
     tv ← Heap.load temp;
     w ← Heap.lift (check_winner tv);
     mret (py_eq w (Some s)))
    (temp ← set_cell (copy_rows v) r c s;
     w ← check_winner temp;
     Ok (py_eq w (Some s))).
Proof.
  intros Hv.
  pose proof (apply_move_refines σ b v r c s Hv) as Hmove.
  unfold apply_move, Heap.apply_move in Hmove.
  unfold Heap.refines, mbind, Heap.M_bind, mret, Heap.M_ret, result_bind
    in *.
  destruct (set_cell (copy_rows v) r c s) as [v'|e].
  - destruct Hmove as (b' & σ' & Hrun & Hsub & Hv' & _).
    destruct (Heap.copy_rows b σ) as [[nb σ1]|]; [| discriminate].
    destruct (Heap.set_cell nb r c s σ1) as [[[] σ2]|]; [| discriminate].
    injection Hrun as -> ->. unfold Heap.holds in Hv'. rewrite Hv'.
    unfold Heap.lift. destruct (check_winner v') as [w|e]; [| done].
    exists σ'. by split.
  - destruct (Heap.copy_rows b σ) as [[nb σ1]|]; [| by injection Hmove as ->].
    destruct (Heap.set_cell nb r c s σ1) as [[[] σ2]|];
      [discriminate | by injection Hmove as ->].
Qed.

Lemma wins_at_refines (σ : Heap.store) (b : Heap.loc) (v : board)
    (s : string) (rc : Z * Z) :
  Heap.holds σ b v ->
  Heap.refines σ (Heap.wins_at b s rc) (wins_at v s rc).
Proof.
  intros Hv. destruct rc as [r c]. unfold Heap.wins_at, wins_at.
  apply (refines_load σ b v); [done |].
  apply (refines_bind _ _ _ _ _ (fun σ' => Heap.holds σ' b v)).
  - apply refines_lift.
  - intros σ' Hsub. by eapply holds_preserved.
  - intros x σ' Hv'. destruct (is_None x).
    + by apply trial_refines.
    + apply refines_ret.
Qed.

Lemma first_hit_refines {A} (σ : Heap.store) (b : Heap.loc) (v : board)
    (testH : A -> Heap.M bool) (test : A -> result bool) (xs : list A) :
  (forall σ' x, Heap.holds σ' b v -> Heap.refines σ' (testH x) (test x)) ->
  Heap.holds σ b v ->
  Heap.refines σ (Heap.first_hit testH xs) (first_hit test xs).
Proof.
  intros Htest. revert σ. induction xs as [|x xs IH]; intros σ Hv.
  - apply refines_ret.
  - simpl. apply (refines_bind _ _ _ _ _ (fun σ' => Heap.holds σ' b v)).
    + by apply Htest.
    + intros σ' Hsub. by eapply holds_preserved.
    + intros [] σ' Hv'; [apply refines_ret | by apply IH].
Qed.

Lemma best_ai_move_refines (σ : Heap.store) (b : Heap.loc) (v : board)
    (ai user : string) (draw : nat) :
  Heap.holds σ b v ->
  Heap.refines σ (Heap.best_ai_move b ai user draw)
    (best_ai_move v ai user draw).
Proof.
  intros Hv. unfold Heap.best_ai_move, best_ai_move.
  apply (refines_bind _ _ _ _ _ (fun σ' => Heap.holds σ' b v)).
  { apply (first_hit_refines _ b v); [| done].
    intros. by apply wins_at_refines. }
  { intros σ' Hsub. by eapply holds_preserved. }
  intros [rc|] σ1 Hv1; [apply refines_ret |].
  apply (refines_bind _ _ _ _ _ (fun σ' => Heap.holds σ' b v)).
  { apply (first_hit_refines _ b v); [| done].
    intros. by apply wins_at_refines. }
  { intros σ' Hsub. by eapply holds_preserved. }
  intros [rc|] σ2 Hv2; [apply refines_ret |].
  apply (refines_load σ2 b v); [done |].
  apply (refines_bind _ _ _ _ _ (fun _ => True)); [apply refines_lift | done |].
  intros [|rc empty] σ3 _; apply refines_lift.
Qed.

Lemma best_ai_move_on_store (σ : Heap.store) (b : Heap.loc) (v : board)
    (ai user : string) (draw : nat) (rc : Z * Z) :
  Heap.holds σ b v ->
  best_ai_move v ai user draw = Ok rc ->
  exists σ',
    Heap.best_ai_move b ai user draw σ = Ok (rc, σ') /\
    Heap.preserved σ σ' /\ Heap.holds σ' b v.
Proof.
  intros Hv Hrun.
  pose proof (best_ai_move_refines σ b v ai user draw Hv) as Href.
  rewrite Hrun in Href. destruct Href as (σ' & Hrun' & Hsub).
  exists σ'. split; [done |]. split; [done |]. by eapply holds_preserved.
Qed.

(** ** The engine's contract *)

(** C1.  On every 3x3 board [check_winner] returns without raising; it
    returns the symbol [s] exactly when the first complete line, taking
    the rows top to bottom, then the columns left to right, then the two
    diagonals, holds [s] three times; it returns [None] exactly when none
    of the eight lines is complete; and when the complete lines all hold
    one symbol, it returns [s] exactly when some line holds [s] three
    times. *)
Theorem check_winner_first_complete_line (b : board) :
  board3x3 b ->
  (exists w, check_winner b = Ok w) /\
  (forall s, check_winner b = Ok (Some s) <->
             exists i, first_complete (spec_lines b) i s) /\
  (check_winner b = Ok None <->
   forall line, line ∈ spec_lines b -> ~ complete line) /\
  ((forall s t l1 l2, l1 ∈ spec_lines b -> l2 ∈ spec_lines b ->
                      all_three s l1 -> all_three t l2 -> s = t) ->
   forall s, check_winner b = Ok (Some s) <->
             exists line, line ∈ spec_lines b /\ all_three s line).
Proof.
  intros Hb. rewrite check_winner_winner_in, winner_in_order by done.
  assert (forall s, Ok (winner_in (spec_lines b)) = Ok (Some s) <->
                    exists i, first_complete (spec_lines b) i s) as Hfirst.
  { intros s. rewrite <- winner_in_Some.
    split; [by intros [= ->] | by intros ->]. }
  split; [by eexists |].
  split; [exact Hfirst |]. split.
  - rewrite <- winner_in_None.
    split; [by intros [= ->] | by intros ->].
  - intros Hone s. rewrite Hfirst. split.
    + intros (i & (line & Hi & Hs) & _). exists line.
      split; [| done]. apply list_elem_of_lookup. eauto.
    + intros (line & Hin & Hs).
      destruct (winner_in (spec_lines b)) as [t|] eqn:E.
      * apply winner_in_Some in E as (i & Hi). exists i.
        destruct Hi as [(l1 & Hl1 & Ht) Hmin].
        assert (t = s) as ->; [| by split; [exists l1 |]].
        eapply (Hone t s l1 line); try done.
        apply list_elem_of_lookup. eauto.
      * rewrite winner_in_None in E. destruct (E line Hin). by exists s.
Qed.

(** Two rows complete with different symbols: the top one decides. *)
Lemma check_winner_first_complete_line_witness :
  let b := [[Some "O"; Some "O"; Some "O"];
            [Some "X"; Some "X"; Some "X"];
            [None; None; None]] in
  board3x3 b /\ check_winner b = Ok (Some "O") /\
  exists i, first_complete (spec_lines b) i "O".
Proof.
  intros b.
  pose proof (check_winner_first_complete_line b
                (board3x3_intro _ _ _ _ _ _ _ _ _)) as (_ & Hfirst & _).
  split; [apply board3x3_intro |]. split; [reflexivity |].
  by apply Hfirst.
Defined.

(** Whatever phase answers, the answer is an empty cell; the exception
    is left for the board without one. *)
Lemma best_ai_move_cases (b : board) (ai user : string) (draw : nat) :
  board3x3 b ->
  (exists r c, best_ai_move b ai user draw = Ok (r, c) /\ empty_cell b r c) \/
  (best_ai_move b ai user draw = Raise no_moves_left /\
   forall r c, ~ empty_cell b r c).
Proof.
  intros Hb. rewrite best_ai_move_phases by done.
  assert (forall s r c, List.find (winsb b s) cells = Some (r, c) ->
                        empty_cell b r c) as Hfound.
  { intros s r c (Hrc & Hw & _)%find_cells_first.
    apply winsb_winning_cell in Hw as (_ & Hcell & _); [| done..].
    by split. }
  destruct (List.find (winsb b ai) cells) as [[r c]|] eqn:Hwin.
  { left. exists r, c. split; [done |]. by eapply Hfound. }
  destruct (List.find (winsb b user) cells) as [[r c]|] eqn:Hblock.
  { left. exists r, c. split; [done |]. by eapply Hfound. }
  destruct (List.filter (emptyb b) cells) as [|rc empty] eqn:Hempty.
  - right. split; [done |]. intros r c Hcell.
    pose proof Hcell as [Hrc _].
    apply emptyb_empty_cell in Hcell; [| done..].
    assert (In (r, c) (List.filter (emptyb b) cells)) as Hin.
    { apply filter_In. split; [| done].
      by apply list_elem_of_In, elem_of_cells. }
    by rewrite Hempty in Hin.
  - left.
    destruct (random_choice_elem draw (rc :: empty)) as ([r c] & -> & Hin);
      [done |].
    exists r, c. split; [done |].
    rewrite <- Hempty in Hin. apply list_elem_of_In, filter_In in Hin as [Hin He].
    apply list_elem_of_In, elem_of_cells in Hin.
    by apply emptyb_empty_cell.
Qed.

Lemma best_ai_move_search (b : board) (s : string) :
  board3x3 b ->
  match List.find (winsb b s) cells with
  | Some (r, c) => first_cell (winning_cell b s) r c
  | None => forall r c, ~ winning_cell b s r c
  end.
Proof.
  intros Hb. destruct (List.find (winsb b s) cells) as [[r c]|] eqn:E.
  - apply find_cells_first in E as (Hrc & Hw & Hmin). split.
    + by apply winsb_winning_cell.
    + intros r' c' Hw'. pose proof Hw' as [Hrc' _].
      apply Hmin; [done |]. by apply winsb_winning_cell.
  - intros r c Hw. pose proof Hw as [Hrc _].
    rewrite find_all_false in E.
    apply winsb_winning_cell in Hw; [| done..].
    rewrite (E (r, c)) in Hw; [done |]. by apply elem_of_cells.
Qed.

(** C2.  When some empty cell wins the game for [ai_symbol],
    [best_ai_move] returns the first such cell in row-major order,
    whatever the opponent could do and whatever the random draw. *)
Theorem best_ai_move_takes_first_win (b : board) (ai_symbol opponent_symbol : string)
    (draw : nat) :
  board3x3 b ->
  (exists r c, winning_cell b ai_symbol r c) ->
  exists r c,
    best_ai_move b ai_symbol opponent_symbol draw = Ok (r, c) /\
    first_cell (winning_cell b ai_symbol) r c.
Proof.
  intros Hb (r0 & c0 & Hw). rewrite best_ai_move_phases by done.
  pose proof (best_ai_move_search b ai_symbol Hb) as Hs.
  destruct (List.find (winsb b ai_symbol) cells) as [[r c]|].
  - by exists r, c.
  - destruct (Hs r0 c0 Hw).
Qed.

(** Settle [winning_cell] on a concrete board by evaluation. *)
Ltac winning_by_evaluation :=
  split; [unfold in_range; lia |];
  split; [reflexivity |];
  eexists; split; reflexivity.

Lemma best_ai_move_takes_first_win_witness :
  let b := [[Some "O"; None; None];
            [Some "O"; Some "X"; Some "X"];
            [None; None; Some "X"]] in
  board3x3 b /\
  (exists r c, winning_cell b "O" r c) /\
  exists r c, best_ai_move b "O" "X" 0 = Ok (r, c) /\
              first_cell (winning_cell b "O") r c.
Proof.
  intros b.
  assert (exists r c, winning_cell b "O" r c) as Hw
    by (exists 2, 0; winning_by_evaluation).
  split; [apply board3x3_intro |]. split; [exact Hw |].
  exact (best_ai_move_takes_first_win b "O" "X" 0
           (board3x3_intro _ _ _ _ _ _ _ _ _) Hw).
Defined.

(** C3.  When no empty cell wins for [ai_symbol] but some empty cell would
    win for [opponent_symbol], [best_ai_move] returns the first such
    blocking cell in row-major order. *)
Theorem best_ai_move_blocks (b : board) (ai_symbol opponent_symbol : string)
    (draw : nat) :
  board3x3 b ->
  (forall r c, ~ winning_cell b ai_symbol r c) ->
  (exists r c, winning_cell b opponent_symbol r c) ->
  exists r c,
    best_ai_move b ai_symbol opponent_symbol draw = Ok (r, c) /\
    first_cell (winning_cell b opponent_symbol) r c.
Proof.
  intros Hb Hnone (r0 & c0 & Hw). rewrite best_ai_move_phases by done.
  pose proof (best_ai_move_search b ai_symbol Hb) as Hai.
  pose proof (best_ai_move_search b opponent_symbol Hb) as Hopp.
  destruct (List.find (winsb b ai_symbol) cells) as [[r c]|].
  { destruct Hai as [Hai _]. destruct (Hnone r c Hai). }
  destruct (List.find (winsb b opponent_symbol) cells) as [[r c]|].
  - by exists r, c.
  - destruct (Hopp r0 c0 Hw).
Qed.

(** No cell wins for [s]: checked on the nine cells. *)
Lemma no_winning_cell (b : board) (s : string) :
  board3x3 b ->
  List.find (winsb b s) cells = None -> forall r c, ~ winning_cell b s r c.
Proof.
  intros Hb E. pose proof (best_ai_move_search b s Hb) as H.
  by rewrite E in H.
Qed.

Lemma best_ai_move_blocks_witness :
  let b := [[Some "X"; Some "X"; None];
            [Some "O"; None; None];
            [None; None; None]] in
  board3x3 b /\
  (forall r c, ~ winning_cell b "O" r c) /\
  (exists r c, winning_cell b "X" r c) /\
  exists r c, best_ai_move b "O" "X" 0 = Ok (r, c) /\
              first_cell (winning_cell b "X") r c.
Proof.
  intros b.
  pose proof (board3x3_intro (Some "X") (Some "X") None
                (Some "O") None None None None None) as Hb.
  assert (forall r c, ~ winning_cell b "O" r c) as Hnone
    by (by apply no_winning_cell).
  assert (exists r c, winning_cell b "X" r c) as Hw
    by (exists 0, 2; winning_by_evaluation).
  split; [exact Hb |]. split; [exact Hnone |]. split; [exact Hw |].
  exact (best_ai_move_blocks b "O" "X" 0 Hb Hnone Hw).
Defined.

(** C4, as stated, fails: on the scenario board [O] does have a winning
    move, the very cell (1,2). *)
Lemma scenario_has_winning_move :
  ~ ((forall r c, ~ winning_cell scenario_board "O" r c) /\
     forall draw, best_ai_move scenario_board "O" "X" draw = Ok (1, 2)).
Proof.
  intros [Hnone _]. apply (Hnone 1 2). winning_by_evaluation.
Qed.

(** C4, amended.  On the scenario board [best_ai_move] returns (1,2)
    whatever the random draw; (1,2) is the winning cell of [O], the only
    one, taken in the win-now phase; it is not a blocking cell: the only
    cell where [X] would win is (0,2). *)
Theorem scenario_move_is_the_win (draw : nat) :
  best_ai_move scenario_board "O" "X" draw = Ok (1, 2) /\
  first_cell (winning_cell scenario_board "O") 1 2 /\
  ~ winning_cell scenario_board "X" 1 2 /\
  first_cell (winning_cell scenario_board "X") 0 2 /\
  (forall r c, winning_cell scenario_board "X" r c <-> (r, c) = (0, 2)) /\
  (forall r c, winning_cell scenario_board "O" r c <-> (r, c) = (1, 2)).
Proof.
  pose proof (board3x3_intro (Some "X") (Some "X") None
                (Some "O") (Some "O") None None None None) as Hb.
  pose proof (best_ai_move_search scenario_board "O" Hb) as HO.
  pose proof (best_ai_move_search scenario_board "X" Hb) as HX.
  change (List.find (winsb scenario_board "O") cells) with (Some (1, 2)) in HO.
  change (List.find (winsb scenario_board "X") cells) with (Some (0, 2)) in HX.
  split; [reflexivity |]. split; [exact HO |].
  split.
  { intros (_ & _ & b' & Hmove & Hwin).
    injection Hmove as <-. discriminate Hwin. }
  split; [exact HX |].
  split; intros r c;
    (split; [| intros [= -> ->]; winning_by_evaluation]);
    intros ([Hr Hc] & Hcell & b' & Hmove & Hwin);
    split3 r; split3 c;
    vm_compute in Hcell; try discriminate Hcell;
    vm_compute in Hmove; injection Hmove as <-;
    vm_compute in Hwin; try discriminate Hwin; reflexivity.
Qed.

(** C5.  On a 3x3 board [validate_move] never raises, and answers [True]
    exactly when both coordinates are in [0, 3) and the cell is [None]; on
    coordinates out of range it answers [False] on any list whatever,
    without looking at it. *)
Theorem validate_move_spec (b : board) (row col : Z) :
  board3x3 b ->
  (exists ok, validate_move b row col = Ok ok) /\
  (validate_move b row col = Ok true <->
   0 <= row < 3 /\ 0 <= col < 3 /\ cell_at b row col = Ok None) /\
  (forall any : board, row < 0 \/ row > 2 \/ col < 0 \/ col > 2 ->
                       validate_move any row col = Ok false).
Proof.
  intros Hb. split; [| split].
  - destruct (decide (in_range row col)) as [Hrc | Hrc].
    + rewrite validate_move_in_range by done.
      destruct (cell_at_total b row col Hb Hrc) as [x ->]. by eexists.
    + exists false. apply validate_move_out_of_range.
      unfold in_range in Hrc. lia.
  - split.
    + intros Hv. destruct (decide (in_range row col)) as [Hrc | Hrc].
      * rewrite validate_move_in_range in Hv by done.
        destruct Hrc as [Hr Hc]. split; [done |]. split; [done |].
        destruct (cell_at b row col) as [[?|]|]; by simplify_eq/=.
      * rewrite validate_move_out_of_range in Hv; [done |].
        unfold in_range in Hrc. lia.
    + intros (Hr & Hc & Hcell).
      rewrite validate_move_in_range by done. by rewrite Hcell.
  - intros any. apply validate_move_out_of_range.
Qed.

Lemma validate_move_spec_witness :
  board3x3 scenario_board /\
  validate_move scenario_board 1 2 = Ok true /\
  validate_move scenario_board 3 0 = Ok false.
Proof.
  pose proof (validate_move_spec scenario_board 1 2
                (board3x3_intro _ _ _ _ _ _ _ _ _)) as (_ & Hiff & _).
  split; [apply board3x3_intro |]. split; [| reflexivity].
  apply Hiff. repeat split; lia.
Defined.

(** C6.  For a board object holding a 3x3 value and a cell in range,
    [apply_move] returns a board object that did not exist before, whose
    rows did not exist before either; it holds [symbol] at the cell and
    the input's items everywhere else; every object of the store the call
    started from, the input board and its rows among them, is unchanged;
    and [validate_move] rejects the cell on the result. *)
Theorem apply_move_returns_new_board (σ : Heap.store) (b : Heap.loc)
    (v : board) (r c : Z) (symbol : string) :
  Heap.holds σ b v -> board3x3 v -> in_range r c ->
  exists b' σ' v',
    Heap.apply_move b r c symbol σ = Ok (b', σ') /\
    Heap.holds σ' b' v' /\
    apply_move v r c symbol = Ok v' /\
    cell_at v' r c = Ok (Some symbol) /\
    (forall r' c', in_range r' c' -> (r', c') <> (r, c) ->
                   cell_at v' r' c' = cell_at v r' c') /\
    Heap.preserved σ σ' /\
    Heap.holds σ' b v /\
    σ !! b' = None /\
    Forall (fun l => σ !! l = None) (Heap.rows_of σ' b') /\
    validate_move v' r c = Ok false.
Proof.
  intros Hv H3 Hrc.
  destruct (apply_move_in_range v r c symbol H3 Hrc)
    as (v' & Hmove & H3' & Hcell & Hframe).
  pose proof (apply_move_refines σ b v r c symbol Hv) as Href.
  rewrite Hmove in Href.
  destruct Href as (b' & σ' & Hrun & Hsub & Hv' & Hfresh & Hrows).
  exists b', σ', v'. repeat split; try done.
  - by eapply holds_preserved.
  - rewrite validate_move_in_range by done. by rewrite Hcell.
Qed.

Lemma scenario_store_holds :
  Heap.holds scenario_store 4%positive scenario_board.
Proof. reflexivity. Qed.

Lemma apply_move_returns_new_board_witness :
  Heap.holds scenario_store 4%positive scenario_board /\
  board3x3 scenario_board /\ in_range 1 2 /\
  exists b' σ' v',
    Heap.apply_move 4%positive 1 2 "O" scenario_store = Ok (b', σ') /\
    Heap.holds σ' b' v' /\
    cell_at v' 1 2 = Ok (Some "O") /\
    Heap.holds σ' 4%positive scenario_board.
Proof.
  assert (in_range 1 2) as Hrc by (unfold in_range; lia).
  split; [exact scenario_store_holds |].
  split; [apply board3x3_intro |]. split; [exact Hrc |].
  destruct (apply_move_returns_new_board scenario_store 4%positive
              scenario_board 1 2 "O" scenario_store_holds
              (board3x3_intro _ _ _ _ _ _ _ _ _) Hrc)
    as (b' & σ' & v' & Hrun & Hv' & _ & Hcell & _ & _ & Hold & _).
  exists b', σ', v'. repeat split; assumption.
Defined.

(** C7.  On a 3x3 board [best_ai_move] raises exactly when the board is
    full, and then the exception is [Exception("No moves left")]; on a
    board with an empty cell it returns the coordinates of an empty cell,
    in every phase and for every random draw. *)
Theorem best_ai_move_raises_iff_full (b : board)
    (ai_symbol opponent_symbol : string) (draw : nat) :
  board3x3 b ->
  (forall e, best_ai_move b ai_symbol opponent_symbol draw = Raise e <->
             is_board_full b = true /\ e = no_moves_left) /\
  (is_board_full b = true <-> forall r c, ~ empty_cell b r c) /\
  (is_board_full b = false ->
   exists r c, best_ai_move b ai_symbol opponent_symbol draw = Ok (r, c) /\
               empty_cell b r c).
Proof.
  intros Hb. pose proof (is_board_full_spec b Hb) as Hfull.
  split; [| split; [exact Hfull |]].
  - intros e.
    destruct (best_ai_move_cases b ai_symbol opponent_symbol draw Hb)
      as [(r & c & -> & Hcell) | [-> Hnone]].
    + split; [discriminate |]. intros [Hf _].
      rewrite Hfull in Hf. destruct (Hf r c Hcell).
    + rewrite Hfull. split.
      * by intros [= <-].
      * by intros [_ ->].
  - intros Hnot.
    destruct (best_ai_move_cases b ai_symbol opponent_symbol draw Hb)
      as [(r & c & Hrun & Hcell) | [_ Hnone]].
    + by exists r, c.
    + apply Hfull in Hnone. congruence.
Qed.

Lemma best_ai_move_raises_iff_full_witness :
  board3x3 drawn_board /\
  is_board_full drawn_board = true /\
  best_ai_move drawn_board "O" "X" 7 = Raise no_moves_left.
Proof.
  pose proof (best_ai_move_raises_iff_full drawn_board "O" "X" 7
                (board3x3_intro _ _ _ _ _ _ _ _ _)) as (Hraise & _ & _).
  split; [apply board3x3_intro |]. split; [reflexivity |].
  apply Hraise. split; reflexivity.
Defined.

(** ** Turns *)

Lemma rebuild_from (moves : list move) (b : board) (n : nat) :
  board3x3 b ->
  Forall (fun m => in_range (m_row m) (m_col m)) moves ->
  exists b',
    for_each moves (fun '(b, turn) m =>
      b' ← apply_move b (m_row m) (m_col m) (m_player m);
      Ok (b', next_turn turn)) (b, turn_after n)
    = Ok (b', turn_after (n + length moves)) /\ board3x3 b'.
Proof.
  intros Hb Hmoves. revert b n Hb.
  induction Hmoves as [|m moves Hm _ IH]; intros b n Hb.
  - exists b. simpl. by rewrite Nat.add_0_r.
  - simpl.
    destruct (apply_move_in_range b (m_row m) (m_col m) (m_player m) Hb Hm)
      as (b1 & -> & Hb1 & _).
    simpl. rewrite next_turn_turn_after.
    destruct (IH b1 (S n) Hb1) as (b' & Hrun & Hb').
    exists b'. split; [| done]. rewrite Hrun. do 3 f_equal. lia.
Qed.

(** C8.  [next_turn] swaps ["X"] and ["O"]; and the replay loop of
    [make_move], run on [n] moves with coordinates in range, ends with a
    3x3 board and with turn ["X"] when [n] is even, ["O"] when it is odd. *)
Theorem replay_turn_alternates (moves : list move) :
  Forall (fun m => in_range (m_row m) (m_col m)) moves ->
  next_turn "X" = "O" /\ next_turn "O" = "X" /\
  exists b,
    rebuild moves = Ok (b, if Nat.even (length moves) then "X" else "O") /\
    board3x3 b.
Proof.
  intros Hmoves. split; [reflexivity |]. split; [reflexivity |].
  destruct (rebuild_from moves empty_board 0 (board3x3_intro _ _ _ _ _ _ _ _ _)
              Hmoves) as (b & Hrun & Hb).
  by exists b.
Qed.

Lemma replay_turn_alternates_witness :
  let moves := [Move 0 0 "X"; Move 1 1 "O"; Move 0 1 "X"] in
  Forall (fun m => in_range (m_row m) (m_col m)) moves /\
  exists b, rebuild moves = Ok (b, "O") /\ board3x3 b.
Proof.
  intros moves.
  assert (Forall (fun m => in_range (m_row m) (m_col m)) moves) as Hmoves
    by (repeat constructor; simpl; lia).
  split; [exact Hmoves |].
  exact (proj2 (proj2 (replay_turn_alternates moves Hmoves))).
Defined.

(** C9.  With [row] and [col] in [-3, 0) [apply_move] does not raise: the
    subscripts count from the end, so the call does what it does at
    [(row + 3, col + 3)], a cell [validate_move] refuses under the
    coordinates given. *)
Theorem apply_move_negative_wraps (b : board) (row col : Z) (symbol : string) :
  board3x3 b -> -3 <= row < 0 -> -3 <= col < 0 ->
  apply_move b row col symbol = apply_move b (row + 3) (col + 3) symbol /\
  (exists b', apply_move b row col symbol = Ok b' /\
              cell_at b' (row + 3) (col + 3) = Ok (Some symbol)) /\
  validate_move b row col = Ok false.
Proof.
  intros Hb Hr Hc. explicit_board b.
  apply neg_three_cases in Hr, Hc.
  destruct Hr as [-> | [-> | ->]], Hc as [-> | [-> | ->]];
    (split; [reflexivity |]; split; [by eexists | reflexivity]).
Qed.

Lemma apply_move_negative_wraps_witness :
  board3x3 scenario_board /\ -3 <= -1 < 0 /\ -3 <= -3 < 0 /\
  apply_move scenario_board (-1) (-3) "X" = apply_move scenario_board 2 0 "X".
Proof.
  split; [apply board3x3_intro |]. split; [lia |]. split; [lia |].
  apply (apply_move_negative_wraps scenario_board (-1) (-3) "X");
    [apply board3x3_intro | lia | lia].
Defined.

(** C10.  [next_turn] is defined on every string and answers ["X"] on
    every string other than ["X"]. *)
Theorem next_turn_defaults_to_X (current : string) :
  current <> "X" -> next_turn current = "X".
Proof. apply next_turn_not_X. Qed.

Lemma next_turn_defaults_to_X_witness :
  "Z" <> "X" /\ next_turn "Z" = "X".
Proof.
  assert ("Z" <> "X") as Hne by discriminate.
  split; [exact Hne | exact (next_turn_defaults_to_X "Z" Hne)].
Defined.

Example next_turn_lower_case : next_turn "x" = "X".
Proof. reflexivity. Qed.

Example next_turn_empty_string : next_turn "" = "X".
Proof. reflexivity. Qed.

Example next_turn_O : next_turn "O" = "X".
Proof. reflexivity. Qed.

(** ** Scenarios of the specification *)

Example empty_board_has_no_winner : check_winner empty_board = Ok None.
Proof. reflexivity. Qed.

(** [X] plays (0,0), (0,1), (0,2) with [O] in between at (1,0), (1,1). *)
Example top_row_wins :
  exists b, rebuild [Move 0 0 "X"; Move 1 0 "O"; Move 0 1 "X";
                     Move 1 1 "O"; Move 0 2 "X"] = Ok (b, "O") /\
            check_winner b = Ok (Some "X") /\ is_board_full b = false.
Proof. eexists. repeat split. Qed.

Example drawn_board_is_a_draw :
  check_winner drawn_board = Ok None /\ is_board_full drawn_board = true.
Proof. split; reflexivity. Qed.

(** The same move on the store: the scenario board is still there, and
    the answer is the one computed on its value. *)
Example scenario_move_on_store (draw : nat) :
  exists σ', Heap.best_ai_move 4%positive "O" "X" draw scenario_store
             = Ok ((1, 2), σ') /\
             Heap.holds σ' 4%positive scenario_board.
Proof.
  destruct (best_ai_move_on_store scenario_store 4%positive scenario_board
              "O" "X" draw (1, 2) scenario_store_holds eq_refl)
    as (σ' & Hrun & _ & Hv).
  by exists σ'.
Qed.

(** * More of [game_logic.py] *)

(** ** The validator, for the proofs below *)

Lemma validate_move_answer (b : board) (row col : Z) :
  board3x3 b ->
  (exists ok, validate_move b row col = Ok ok) /\
  (validate_move b row col = Ok true <->
   0 <= row < 3 /\ 0 <= col < 3 /\ cell_at b row col = Ok None) /\
  (~ in_range row col -> validate_move b row col = Ok false).
Proof.
  intros Hb.
  destruct (decide (in_range row col)) as [Hrc | Hrc].
  - rewrite validate_move_in_range by done.
    destruct (cell_at_total b row col Hb Hrc) as [x ->]. simpl.
    split; [by eexists |]. split; [| done].
    destruct Hrc as [Hr Hc]. destruct x; simpl; split; try done.
    + intros (_ & _ & [=]).
  - assert (validate_move b row col = Ok false) as ->.
    { apply validate_move_out_of_range. unfold in_range in Hrc. lia. }
    split; [by eexists |]. split; [| done].
    split; [done |]. intros (Hr & Hc & _). by destruct Hrc.
Qed.

(** ** Subscripts out of range *)

Lemma py_pos_None (n : nat) (i : Z) :
  py_pos n i = None <-> ~ (- Z.of_nat n <= i < Z.of_nat n).
Proof.
  unfold py_pos.
  destruct (Z.ltb_spec i 0);
    [destruct (Z.leb_spec 0 (i + Z.of_nat n)),
       (Z.ltb_spec (i + Z.of_nat n) (Z.of_nat n))
    | destruct (Z.leb_spec 0 i), (Z.ltb_spec i (Z.of_nat n))];
    simpl; split; try done; try lia.
Qed.

Lemma py_pos_is_Some (n : nat) (i : Z) :
  - Z.of_nat n <= i < Z.of_nat n -> exists k, py_pos n i = Some k /\ (k < n)%nat.
Proof.
  intros Hi. destruct (py_pos n i) as [k|] eqn:E.
  - exists k. split; [done |]. by eapply py_pos_lt.
  - apply py_pos_None in E. contradiction.
Qed.

(** X1.  On a 3x3 board [apply_move] raises exactly when [row] or [col]
    lies outside [-3, 3), the exception is [IndexError], and the check of
    [row] comes first; inside that square it always returns a 3x3 board. *)
Theorem apply_move_raises_iff_out_of_range (b : board) (row col : Z)
    (symbol : string) :
  board3x3 b ->
  (apply_move b row col symbol = Raise IndexError <->
   ~ (-3 <= row < 3 /\ -3 <= col < 3)) /\
  (-3 <= row < 3 /\ -3 <= col < 3 ->
   exists b', apply_move b row col symbol = Ok b' /\ board3x3 b').
Proof.
  intros Hb. explicit_board b.
  assert (forall x y z : cell, length [x; y; z] = 3%nat) as Hlen by done.
  unfold apply_move. rewrite copy_rows_id.
  unfold set_cell, py_getitem, py_setitem.
  change (length [[a; a0; a1]; [a2; a3; a4]; [a5; a6; a7]]) with 3%nat.
  destruct (decide (-3 <= row < 3)) as [Hr | Hr].
  - destruct (py_pos_is_Some 3 row Hr) as (k & -> & Hk).
    destruct k as [|[|[|k]]]; [| | | lia]; simpl;
      (destruct (decide (-3 <= col < 3)) as [Hc | Hc];
       [ destruct (py_pos_is_Some 3 col Hc) as (j & -> & Hj); simpl;
         split; [split; [discriminate | tauto] |];
         intros _; eexists; split; [reflexivity |];
         destruct j as [|[|[|j]]]; try lia; apply board3x3_intro
       | assert (py_pos 3 col = None) as -> by (by apply py_pos_None);
         simpl; split; [split; [tauto | done] | tauto] ]).
  - assert (py_pos 3 row = None) as -> by (by apply py_pos_None).
    simpl. split; [split; [tauto | done] | tauto].
Qed.

Lemma apply_move_raises_iff_out_of_range_witness :
  board3x3 scenario_board /\
  apply_move scenario_board 3 0 "X" = Raise IndexError /\
  apply_move scenario_board 0 (-4) "X" = Raise IndexError.
Proof.
  pose proof (apply_move_raises_iff_out_of_range scenario_board 3 0 "X"
                (board3x3_intro _ _ _ _ _ _ _ _ _)) as [Hraise _].
  split; [apply board3x3_intro |]. split; [| reflexivity].
  apply Hraise. lia.
Defined.

(** ** Full boards *)

(** X2.  On a 3x3 board [is_board_full] answers [True] exactly when
    [validate_move] refuses every pair of coordinates: a full board is a
    board on which no move is legal. *)
Theorem is_board_full_iff_no_legal_move (b : board) :
  board3x3 b ->
  is_board_full b = true <-> forall r c, validate_move b r c = Ok false.
Proof.
  intros Hb. rewrite is_board_full_spec by done. split.
  - intros Hnone r c. destruct (decide (in_range r c)) as [Hrc | Hrc].
    + rewrite validate_move_in_range by done.
      destruct (cell_at_total b r c Hb Hrc) as [[s|] Hx]; rewrite Hx; [done |].
      destruct (Hnone r c). by split.
    + apply validate_move_out_of_range. unfold in_range in Hrc. lia.
  - intros Hval r c [Hrc Hcell]. specialize (Hval r c).
    rewrite validate_move_in_range in Hval by done.
    by rewrite Hcell in Hval.
Qed.

Lemma is_board_full_iff_no_legal_move_witness :
  board3x3 drawn_board /\ forall r c, validate_move drawn_board r c = Ok false.
Proof.
  split; [apply board3x3_intro |].
  by apply (is_board_full_iff_no_legal_move drawn_board
              (board3x3_intro _ _ _ _ _ _ _ _ _)).
Defined.

(** ** Boards of the wrong shape *)

(** X3.  [check_winner] subscripts rows 0 to 2 before it compares
    anything: on a list of fewer than three rows it raises [IndexError],
    whatever the rows hold. *)
Theorem check_winner_short_board (b : board) :
  (length b < 3)%nat -> check_winner b = Raise IndexError.
Proof.
  intros Hlen. unfold check_winner, build_lines.
  destruct b as [|r0 [|r1 [|r2 b]]]; simpl in Hlen; [| | | lia].
  - reflexivity.
  - destruct r0 as [|x r0]; reflexivity.
  - destruct r0 as [|x r0]; [reflexivity |].
    destruct r1 as [|y r1]; reflexivity.
Qed.

Lemma check_winner_short_board_witness :
  (length ([[Some "X"; Some "X"; Some "X"]; [None; None; None]] : board) < 3)%nat /\
  check_winner [[Some "X"; Some "X"; Some "X"]; [None; None; None]]
  = Raise IndexError.
Proof.
  assert (length ([[Some "X"; Some "X"; Some "X"]; [None; None; None]] : board)
          < 3)%nat as Hlen by (simpl; lia).
  split; [exact Hlen | exact (check_winner_short_board _ Hlen)].
Defined.

(** ** Moves on a board that has a winner *)

Lemma uniformb_None_1 (y z : cell) : uniformb [None; y; z] = false.
Proof. reflexivity. Qed.

Lemma uniformb_None_2 (x z : cell) : uniformb [x; None; z] = false.
Proof.
  destruct (uniformb [x; None; z]) eqn:E; [| reflexivity].
  apply uniformb_complete in E as [s E]. discriminate E.
Qed.

Lemma uniformb_None_3 (x y : cell) : uniformb [x; y; None] = false.
Proof.
  destruct (uniformb [x; y; None]) eqn:E; [| reflexivity].
  apply uniformb_complete in E as [s E]. discriminate E.
Qed.

(** X4.  A legal move never removes a winner: when [check_winner] finds
    a winner on a 3x3 board and [validate_move] accepts [(r, c)], then
    [check_winner] finds a winner on the board [apply_move] returns, for
    any symbol played. *)
Theorem winner_survives_legal_move (b : board) (s t : string) (r c : Z) :
  board3x3 b ->
  check_winner b = Ok (Some s) ->
  validate_move b r c = Ok true ->
  exists b' s',
    apply_move b r c t = Ok b' /\ check_winner b' = Ok (Some s').
Proof.
  intros Hb Hwin Hval.
  destruct (validate_move_answer b r c Hb) as (_ & Hiff & _).
  apply Hiff in Hval as (Hr & Hc & Hcell).
  destruct (apply_move_in_range b r c t Hb (conj Hr Hc))
    as (b' & Hmove & Hb' & _).
  exists b'. rewrite Hmove.
  rewrite check_winner_winner_in in Hwin |- * by done.
  injection Hwin as Hwin.
  enough (exists s', winner_in (code_lines b') = Some s') as [s' ->]
    by (by exists s').
  clear Hb'. explicit_board b.
  split3 r; split3 c; injection Hcell as ->; injection Hmove as <-;
    unfold winner_in, code_lines in *; cbn [at_rc lookup list_lookup default
      from_option option_ret option_bind mbind] in *;
    cbn [List.find] in *; unfold id in *;
    rewrite ?uniformb_None_1, ?uniformb_None_2, ?uniformb_None_3 in Hwin;
    repeat match goal with
           | |- context [if uniformb ?l then _ else _] =>
               destruct (uniformb l) eqn:?
           end;
    try discriminate Hwin;
    repeat match goal with
           | H : uniformb _ = true |- _ =>
               apply uniformb_complete in H as [? H]; unfold all_three in H
           end;
    simplify_eq; by eexists.
Qed.

Lemma winner_survives_legal_move_witness :
  let b := [[Some "X"; Some "X"; Some "X"];
            [Some "O"; Some "O"; None];
            [None; None; None]] in
  board3x3 b /\ check_winner b = Ok (Some "X") /\
  validate_move b 1 2 = Ok true /\
  exists b' s', apply_move b 1 2 "O" = Ok b' /\ check_winner b' = Ok (Some s').
Proof.
  intros b. split; [apply board3x3_intro |]. split; [reflexivity |].
  split; [reflexivity |].
  exact (winner_survives_legal_move b "X" "O" 1 2
           (board3x3_intro _ _ _ _ _ _ _ _ _) eq_refl eq_refl).
Defined.

(** ** What the selector's answer is good for *)

(** X5.  Whatever cell [best_ai_move] returns on a 3x3 board,
    [validate_move] accepts it: the selector never proposes an occupied
    cell or coordinates out of range. *)
Theorem best_ai_move_is_legal (b : board) (ai_symbol user_symbol : string)
    (draw : nat) (r c : Z) :
  board3x3 b ->
  best_ai_move b ai_symbol user_symbol draw = Ok (r, c) ->
  validate_move b r c = Ok true.
Proof.
  intros Hb Hrun.
  destruct (best_ai_move_cases b ai_symbol user_symbol draw Hb)
    as [(r' & c' & Hrun' & Hrc & Hcell) | [Hraise _]];
    [| congruence].
  rewrite Hrun in Hrun'. injection Hrun' as <- <-.
  rewrite validate_move_in_range by done. by rewrite Hcell.
Qed.

Lemma best_ai_move_is_legal_witness :
  board3x3 scenario_board /\
  best_ai_move scenario_board "X" "O" 0 = Ok (0, 2) /\
  validate_move scenario_board 0 2 = Ok true.
Proof.
  split; [apply board3x3_intro |]. split; [reflexivity |].
  exact (best_ai_move_is_legal scenario_board "X" "O" 0 0 2
           (board3x3_intro _ _ _ _ _ _ _ _ _) eq_refl).
Defined.

(** X6.  When some empty cell wins for [ai_symbol], playing the cell
    [best_ai_move] returns wins: [check_winner] on the board after
    [apply_move] is [ai_symbol]. *)
Theorem best_ai_move_wins_when_it_can (b : board)
    (ai_symbol user_symbol : string) (draw : nat) :
  board3x3 b ->
  (exists r c, winning_cell b ai_symbol r c) ->
  exists r c b',
    best_ai_move b ai_symbol user_symbol draw = Ok (r, c) /\
    apply_move b r c ai_symbol = Ok b' /\
    check_winner b' = Ok (Some ai_symbol).
Proof.
  intros Hb (r0 & c0 & Hw). rewrite best_ai_move_phases by done.
  pose proof (best_ai_move_search b ai_symbol Hb) as Hs.
  destruct (List.find (winsb b ai_symbol) cells) as [[r c]|].
  - destruct Hs as [(_ & _ & b' & Hmove & Hwin) _]. by exists r, c, b'.
  - destruct (Hs r0 c0 Hw).
Qed.

Lemma best_ai_move_wins_when_it_can_witness :
  board3x3 scenario_board /\
  (exists r c, winning_cell scenario_board "O" r c) /\
  exists r c b',
    best_ai_move scenario_board "O" "X" 0 = Ok (r, c) /\
    apply_move scenario_board r c "O" = Ok b' /\
    check_winner b' = Ok (Some "O").
Proof.
  assert (exists r c, winning_cell scenario_board "O" r c) as Hw
    by (exists 1, 2; winning_by_evaluation).
  split; [apply board3x3_intro |]. split; [exact Hw |].
  exact (best_ai_move_wins_when_it_can scenario_board "O" "X" 0
           (board3x3_intro _ _ _ _ _ _ _ _ _) Hw).
Defined.

(** * [main.py]: [start_game] and [make_move] *)

(** ** Replaying a history *)

Lemma for_each_app {A S} (xs ys : list A) (body : S -> A -> result S) (s : S) :
  for_each (xs ++ ys) body s = (s' ← for_each xs body s; for_each ys body s').
Proof.
  revert s. induction xs as [|x xs IH]; intros s; simpl; [done |].
  destruct (body s x) as [s'|e]; simpl; [apply IH | done].
Qed.

Lemma replays_rebuild (ms : list move) (b : board) :
  Main.replays ms b ->
  rebuild ms = Ok (b, turn_after (length ms)) /\ board3x3 b.
Proof.
  induction 1 as [|ms b r c b' _ [IH Hb] Hval Hmove].
  - split; [reflexivity | apply board3x3_intro].
  - destruct (validate_move_answer b r c Hb) as (_ & Hiff & _).
    apply Hiff in Hval as (Hr & Hc & _).
    destruct (apply_move_in_range b r c (turn_after (length ms)) Hb
                (conj Hr Hc)) as (b'' & Hmove' & Hb'' & _).
    assert (b'' = b') as -> by congruence.
    split; [| done].
    unfold rebuild in *. rewrite for_each_app, IH. simpl.
    rewrite Hmove. simpl. rewrite next_turn_turn_after.
    rewrite length_app. simpl. by rewrite Nat.add_1_r.
Qed.

Lemma turn_after_cases (n : nat) :
  (Nat.even n = true /\ turn_after n = "X") \/
  (Nat.even n = false /\ turn_after n = "O").
Proof. unfold turn_after. destruct (Nat.even n); auto. Qed.

Lemma over_false (w : cell) (b : board) :
  Main.over w b = false -> w = None /\ is_board_full b = false.
Proof.
  unfold Main.over. intros [Hw Hf]%orb_false_elim.
  split; [by destruct w | done].
Qed.

Lemma best_ai_move_on_open_board (b : board) (ai user : string)
    (draw : nat) :
  board3x3 b -> is_board_full b = false ->
  exists r c, best_ai_move b ai user draw = Ok (r, c) /\
              validate_move b r c = Ok true.
Proof.
  intros Hb Hfull.
  destruct (best_ai_move_cases b ai user draw Hb)
    as [(r & c & Hrun & Hrc & Hcell) | [_ Hnone]].
  - exists r, c. split; [done |].
    rewrite validate_move_in_range by done. by rewrite Hcell.
  - apply is_board_full_spec in Hnone; [congruence | done].
Qed.

(** What a request on a game whose history replays comes to: the two
    rejections, the plain move, and the move with the selector's reply. *)
Lemma make_move_cases (games : gmap Z Main.Game) (u gid row col : Z)
    (draw : nat) (g : Main.Game) (b : board) :
  games !! gid = Some g ->
  Main.replays (Main.moves_or_empty g) b ->
  let ms := Main.moves_or_empty g in
  let turn := turn_after (length ms) in
  let run := Main.make_move games u gid row col draw in
  (Main.not_your_turn g turn u = true /\
   run = Main.HTTPException 403 "Not your turn") \/
  (Main.not_your_turn g turn u = false /\
   validate_move b row col = Ok false /\
   run = Main.HTTPException 400 "Invalid move") \/
  (Main.not_your_turn g turn u = false /\
   exists b1 w1,
     Main.replays (ms ++ [Move row col turn]) b1 /\
     validate_move b row col = Ok true /\
     check_winner b1 = Ok w1 /\
     ((Main.is_pvp g = true \/ Main.over w1 b1 = true \/ turn = "O") /\
      run = Main.Done
              ({| Main.gs_board := b1;
                  Main.current_turn :=
                    if negb (Main.over w1 b1) then next_turn turn else turn;
                  Main.is_over := Main.over w1 b1;
                  Main.gs_winner := w1 |},
               <[gid:=Main.updated g (ms ++ [Move row col turn]) w1]> games)
      \/
      (Main.is_pvp g = false /\ Main.over w1 b1 = false /\ turn = "X" /\
       exists r c b2 w2,
         best_ai_move b1 "O" "X" draw = Ok (r, c) /\
         Main.replays ((ms ++ [Move row col turn]) ++ [Move r c "O"]) b2 /\
         check_winner b2 = Ok w2 /\
         run = Main.Done
                 ({| Main.gs_board := b2;
                     Main.current_turn :=
                       if negb (Main.over w2 b2) then next_turn turn else turn;
                     Main.is_over := Main.over w2 b2;
                     Main.gs_winner := w2 |},
                  <[gid:=Main.updated g
                           ((ms ++ [Move row col turn]) ++ [Move r c "O"]) w2]>
                    games)))).
Proof.
  intros Hg Hrep. cbv zeta.
  destruct (replays_rebuild _ _ Hrep) as [Hrun Hb].
  unfold Main.make_move. rewrite Hg, Hrun.
  cbn [mbind Main.outcome_bind Main.engine].
  set (ms := Main.moves_or_empty g) in *.
  set (turn := turn_after (length ms)) in *.
  destruct (Main.not_your_turn g turn u) eqn:Hturn; [by left |].
  right.
  destruct (validate_move_answer b row col Hb) as ([ok Hok] & Hiff & _).
  rewrite Hok. cbn [mbind Main.outcome_bind Main.engine].
  destruct ok; cbn [negb]; [| by left].
  right. split; [done |].
  pose proof Hok as (Hr & Hc & _)%Hiff.
  destruct (apply_move_in_range b row col turn Hb (conj Hr Hc))
    as (b1 & Hmove & Hb1 & _).
  assert (Main.replays (ms ++ [Move row col turn]) b1) as Hrep1
    by (by eapply Main.replays_snoc).
  destruct (check_winner_total b1 Hb1) as [w1 Hw1].
  exists b1, w1. split; [done |]. split; [done |]. split; [done |].
  rewrite Hmove. cbn [mbind Main.outcome_bind Main.engine].
  rewrite Hw1. cbn [mbind Main.outcome_bind Main.engine].
  unfold Main.updated.
  destruct (Main.is_pvp g) eqn:Hpvp; cbn [negb andb]; [left; by auto |].
  destruct (Main.over w1 b1) eqn:Hover; cbn [negb andb]; [left; by auto |].
  destruct (turn_after_cases (length ms)) as [[Heven HX] | [Hodd HO]];
    fold turn in HX || fold turn in HO.
  2:{ left. split; [by auto |]. rewrite HO. reflexivity. }
  right. split; [done |]. split; [done |]. split; [done |].
  rewrite HX in *. cbn [next_turn String.eqb Ascii.eqb Bool.eqb].
  apply over_false in Hover as [-> Hfull].
  destruct (best_ai_move_on_open_board b1 "O" "X" draw Hb1 Hfull)
    as (r & c & Hai & Hval).
  rewrite Hai. cbn [mbind Main.outcome_bind Main.engine].
  pose proof (validate_move_answer b1 r c Hb1) as (_ & Hiff1 & _).
  pose proof Hval as (Hr1 & Hc1 & _)%Hiff1.
  destruct (apply_move_in_range b1 r c "O" Hb1 (conj Hr1 Hc1))
    as (b2 & Hmove2 & Hb2 & _).
  destruct (check_winner_total b2 Hb2) as [w2 Hw2].
  assert (turn_after (length (ms ++ [Move row col "X"])) = "O") as HO.
  { rewrite length_app, Nat.add_1_r.
    unfold turn_after. by rewrite Nat.even_succ, <- Nat.negb_even, Heven. }
  exists r, c, b2, w2. split; [done |]. split.
  { rewrite <- HO. eapply Main.replays_snoc; [done.. |]. by rewrite HO. }
  split; [done |].
  rewrite Hmove2. cbn [mbind Main.outcome_bind Main.engine].
  rewrite Hw2. reflexivity.
Qed.

(** The history in the row after a played move: the moves of the request
    when the stored history was empty, the stored history otherwise. *)
Lemma moves_or_empty_updated (g : Main.Game) (ms : list move) (w : cell) :
  Main.moves_or_empty (Main.updated g ms w)
  = match Main.moves_or_empty g with
    | [] => ms
    | m :: ms0 => m :: ms0
    end.
Proof.
  unfold Main.moves_or_empty, Main.updated, Main.committed_moves. simpl.
  destruct (Main.moves g) as [[|m ms0]|]; simpl; by destruct ms.
Qed.

(** ** What a request comes to *)

(** X7.  On a game whose stored history replays, [make_move] never ends
    with an uncaught exception.  It answers 403 exactly when the turn check
    fails, 400 exactly when the turn check passes and [validate_move]
    refuses the cell, and it plays the move in every other case: neither
    the stored winner nor [check_winner] on the replayed board is
    consulted, so a game that is over still takes moves. *)
Theorem make_move_outcome (games : gmap Z Main.Game) (u gid row col : Z)
    (draw : nat) (g : Main.Game) (b : board) :
  games !! gid = Some g ->
  Main.replays (Main.moves_or_empty g) b ->
  let turn := turn_after (length (Main.moves_or_empty g)) in
  let run := Main.make_move games u gid row col draw in
  (forall e, run <> Main.Crash e) /\
  (run = Main.HTTPException 403 "Not your turn" <->
   Main.not_your_turn g turn u = true) /\
  (run = Main.HTTPException 400 "Invalid move" <->
   Main.not_your_turn g turn u = false /\ validate_move b row col = Ok false) /\
  ((exists st games', run = Main.Done (st, games')) <->
   Main.not_your_turn g turn u = false /\ validate_move b row col = Ok true).
Proof.
  intros Hg Hrep. cbv zeta.
  destruct (make_move_cases games u gid row col draw g b Hg Hrep)
    as [(Ht & ->) | [(Ht & Hv & ->) | (Ht & b1 & w1 & _ & Hv & _ & Hrun)]].
  - rewrite Ht. split; [done |]. split; [done |].
    split; (split; [| intros [? _]; discriminate]); [done |].
    intros (? & ? & ?). discriminate.
  - rewrite Ht, Hv. split; [done |]. split; [done |]. split; [done |].
    split; [| intros [_ ?]; discriminate].
    intros (? & ? & ?). discriminate.
  - rewrite Ht, Hv.
    assert (exists st games',
              Main.make_move games u gid row col draw = Main.Done (st, games'))
      as (st & games' & Hdone).
    { destruct Hrun as [[_ ->] | (_ & _ & _ & r & c & b2 & w2 & _ & _ & _ & ->)];
        by eauto. }
    rewrite Hdone. split; [done |]. split; [done |].
    split; [split; [done | intros [_ ?]; discriminate] |].
    split; [done | by eauto].
Qed.

Lemma replay_onto_replays (ms0 ms : list move) (b0 b : board) :
  Main.replays ms0 b0 ->
  Main.replay_onto b0 (length ms0) ms = Some b ->
  Main.replays (ms0 ++ ms) b.
Proof.
  revert ms0 b0. induction ms as [|[r c p] ms IH]; intros ms0 b0 Hrep Hrun.
  - injection Hrun as <-. by rewrite app_nil_r.
  - simpl in Hrun.
    destruct (validate_move b0 r c) as [[|]|] eqn:Hval; try discriminate.
    destruct (apply_move b0 r c p) as [b1|] eqn:Hmove; [| discriminate].
    destruct (String.eqb_spec p (turn_after (length ms0))) as [-> |];
      [| discriminate].
    change (Main.replays
              (ms0 ++ [Move r c (turn_after (length ms0))] ++ ms) b).
    rewrite (assoc_L (++)).
    apply (IH _ b1).
    + by eapply Main.replays_snoc.
    + by rewrite length_app, Nat.add_1_r.
Qed.

Lemma finished_game_replays :
  Main.replays (Main.moves_or_empty finished_game) finished_board.
Proof.
  apply (replay_onto_replays [] _ empty_board); [constructor | reflexivity].
Qed.

(** The finished game takes one more move, from any user, and the winner
    on record changes from [X] to [O]. *)
Lemma make_move_outcome_witness :
  let games : gmap Z Main.Game := {[ 7 := finished_game ]} in
  games !! 7 = Some finished_game /\
  Main.replays (Main.moves_or_empty finished_game) finished_board /\
  check_winner finished_board = Ok (Some "X") /\
  exists st games',
    Main.make_move games 2 7 0 2 0 = Main.Done (st, games') /\
    Main.gs_winner st = Some "O".
Proof.
  intros games.
  pose proof (make_move_outcome games 2 7 0 2 0 finished_game finished_board
                eq_refl finished_game_replays) as (_ & _ & _ & Hdone).
  split; [reflexivity |]. split; [exact finished_game_replays |].
  split; [reflexivity |].
  destruct (proj2 Hdone (conj eq_refl eq_refl)) as (st & games' & Hrun).
  exists st, games'. split; [exact Hrun |].
  vm_compute in Hrun. by injection Hrun as <- _.
Defined.

(** ** A game has at most nine moves *)

Lemma occupied_cons (x : cell) (l : list cell) :
  length (List.filter (fun x => negb (is_None x)) (x :: l))
  = ((if is_None x then 0 else 1)
     + length (List.filter (fun x => negb (is_None x)) l))%nat.
Proof. simpl. by destruct (is_None x). Qed.

Lemma occupied_3x3 (a0 a1 a2 b0 b1 b2 c0 c1 c2 : cell) :
  Main.occupied [[a0; a1; a2]; [b0; b1; b2]; [c0; c1; c2]]
  = ((if is_None a0 then 0 else 1) + (if is_None a1 then 0 else 1)
     + (if is_None a2 then 0 else 1) + (if is_None b0 then 0 else 1)
     + (if is_None b1 then 0 else 1) + (if is_None b2 then 0 else 1)
     + (if is_None c0 then 0 else 1) + (if is_None c1 then 0 else 1)
     + (if is_None c2 then 0 else 1))%nat.
Proof.
  unfold Main.occupied. cbn [concat app].
  rewrite !occupied_cons. simpl. lia.
Qed.

Lemma occupied_full (b : board) :
  board3x3 b ->
  (Main.occupied b <= 9)%nat /\
  (Main.occupied b = 9%nat <-> is_board_full b = true).
Proof.
  intros Hb. explicit_board b. rewrite occupied_3x3.
  destruct a, a0, a1, a2, a3, a4, a5, a6, a7; simpl; split; (lia || done).
Qed.

Lemma occupied_legal_move (b b' : board) (r c : Z) (s : string) :
  board3x3 b ->
  validate_move b r c = Ok true ->
  apply_move b r c s = Ok b' ->
  Main.occupied b' = S (Main.occupied b).
Proof.
  intros Hb Hval Hmove.
  destruct (validate_move_answer b r c Hb) as (_ & Hiff & _).
  apply Hiff in Hval as (Hr & Hc & Hcell).
  explicit_board b.
  split3 r; split3 c; injection Hcell as ->; injection Hmove as <-;
    unfold id; rewrite !occupied_3x3; simpl; lia.
Qed.

Lemma replays_occupied (ms : list move) (b : board) :
  Main.replays ms b -> Main.occupied b = length ms.
Proof.
  induction 1 as [|ms b r c b' Hrep IH Hval Hmove]; [reflexivity |].
  destruct (replays_rebuild ms b Hrep) as [_ Hb].
  rewrite (occupied_legal_move b b' r c _ Hb Hval Hmove), IH.
  rewrite length_app. simpl. lia.
Qed.

(** X12.  A history that replays has as many moves as the board it gives
    has occupied cells, hence nine at most; and a game with nine stored
    moves takes no further move: every request on it is answered 403 or
    400. *)
Theorem make_move_stops_at_nine (games : gmap Z Main.Game) (gid : Z)
    (g : Main.Game) (b : board) :
  games !! gid = Some g ->
  Main.replays (Main.moves_or_empty g) b ->
  Main.occupied b = length (Main.moves_or_empty g) /\
  (length (Main.moves_or_empty g) <= 9)%nat /\
  (length (Main.moves_or_empty g) = 9%nat ->
   forall u row col draw,
     Main.make_move games u gid row col draw
     = Main.HTTPException 403 "Not your turn" \/
     Main.make_move games u gid row col draw
     = Main.HTTPException 400 "Invalid move").
Proof.
  intros Hg Hrep.
  pose proof (replays_occupied _ _ Hrep) as Hocc.
  destruct (replays_rebuild _ _ Hrep) as [_ Hb].
  destruct (occupied_full b Hb) as [Hle Hfull].
  split; [done |]. split; [lia |].
  intros Hnine u row col draw.
  assert (is_board_full b = true) as Hf by (apply Hfull; lia).
  rewrite is_board_full_spec in Hf by done.
  destruct (make_move_cases games u gid row col draw g b Hg Hrep)
    as [(_ & H) | [(_ & _ & H) | (_ & b1 & w1 & _ & Hval & _)]]; [by left | by right |].
  destruct (validate_move_answer b row col Hb) as (_ & Hiff & _).
  apply Hiff in Hval as (Hr & Hc & Hcell).
  destruct (Hf row col). by split.
Qed.

Lemma drawn_game_replays :
  Main.replays (Main.moves_or_empty drawn_game) drawn_board.
Proof.
  apply (replay_onto_replays [] _ empty_board); [constructor | reflexivity].
Qed.

Lemma make_move_stops_at_nine_witness :
  let games : gmap Z Main.Game := {[ 5 := drawn_game ]} in
  games !! 5 = Some drawn_game /\
  Main.replays (Main.moves_or_empty drawn_game) drawn_board /\
  Main.occupied drawn_board = 9%nat /\
  Main.make_move games 1 5 1 1 0 = Main.HTTPException 400 "Invalid move".
Proof.
  intros games.
  destruct (make_move_stops_at_nine games 5 drawn_game drawn_board
              eq_refl drawn_game_replays) as (Hocc & _ & _).
  split; [reflexivity |]. split; [exact drawn_game_replays |].
  split; [exact Hocc | reflexivity].
Defined.

(** ** Only [X] and [O] are ever played *)

Lemma turn_after_plain (n : nat) : plain_cell (Some (turn_after n)).
Proof. unfold plain_cell, turn_after. destruct (Nat.even n); auto. Qed.

Lemma replays_plain (ms : list move) (b : board) :
  Main.replays ms b -> Forall (Forall plain_cell) b.
Proof.
  induction 1 as [|ms b r c b' Hrep IH Hval Hmove].
  - repeat constructor.
  - destruct (replays_rebuild ms b Hrep) as [_ Hb].
    destruct (validate_move_answer b r c Hb) as (_ & Hiff & _).
    apply Hiff in Hval as (Hr & Hc & _).
    pose proof (turn_after_plain (length ms)) as Hturn.
    explicit_board b.
    repeat match goal with
           | H : Forall _ (_ :: _) |- _ => apply Forall_cons in H as [? H]
           end.
    clear Hiff Hb Hrep.
    split3 r; split3 c; injection Hmove as <-;
      repeat match goal with
             | |- Forall _ _ => constructor
             | |- plain_cell _ => assumption
             end.
Qed.

Lemma check_winner_plain (b : board) (w : cell) :
  board3x3 b -> Forall (Forall plain_cell) b ->
  check_winner b = Ok w -> plain_cell w.
Proof.
  intros Hb Hplain. rewrite check_winner_winner_in by done. intros [= <-].
  explicit_board b.
  repeat match goal with
         | H : Forall _ (_ :: _) |- _ => apply Forall_cons in H as [? H]
         end.
  unfold winner_in, code_lines.
  cbn [at_rc lookup list_lookup default from_option] .
  cbn [List.find].
  repeat match goal with
         | |- context [if uniformb ?l then _ else _] =>
             destruct (uniformb l)
         end; first [assumption | by left].
Qed.

(** ** Three marks make a line *)

Lemma marks_cons (s : string) (x : cell) (l : list cell) :
  length (filter (fun x : cell => x = Some s) (x :: l))
  = ((if decide (x = Some s) then 1 else 0)
     + length (filter (fun x : cell => x = Some s) l))%nat.
Proof. rewrite filter_cons. by case_decide. Qed.

Lemma marks_3x3 (s : string) (a0 a1 a2 b0 b1 b2 c0 c1 c2 : cell) :
  Main.marks s [[a0; a1; a2]; [b0; b1; b2]; [c0; c1; c2]]
  = ((if decide (a0 = Some s) then 1 else 0)
     + (if decide (a1 = Some s) then 1 else 0)
     + (if decide (a2 = Some s) then 1 else 0)
     + (if decide (b0 = Some s) then 1 else 0)
     + (if decide (b1 = Some s) then 1 else 0)
     + (if decide (b2 = Some s) then 1 else 0)
     + (if decide (c0 = Some s) then 1 else 0)
     + (if decide (c1 = Some s) then 1 else 0)
     + (if decide (c2 = Some s) then 1 else 0))%nat.
Proof.
  unfold Main.marks. cbn [concat app].
  rewrite !marks_cons, filter_nil. cbn [length]. lia.
Qed.

Lemma marks_legal_move (b b' : board) (r c : Z) (s t : string) :
  board3x3 b ->
  validate_move b r c = Ok true ->
  apply_move b r c s = Ok b' ->
  Main.marks t b' = (Main.marks t b + if decide (s = t) then 1 else 0)%nat.
Proof.
  intros Hb Hval Hmove.
  destruct (validate_move_answer b r c Hb) as (_ & Hiff & _).
  apply Hiff in Hval as (Hr & Hc & Hcell).
  explicit_board b.
  split3 r; split3 c; injection Hcell as ->; injection Hmove as <-;
    unfold id; rewrite !marks_3x3;
    rewrite (decide_False (P := None = Some t)) by done;
    (destruct (decide (s = t)) as [-> | Hne];
     [ rewrite (decide_True (P := Some t = Some t)) by done
     | rewrite (decide_False (P := Some s = Some t)) by congruence ]); lia.
Qed.

(** [X] and [O] in turn: as many marks as moves, and [X] is level with
    [O] or one ahead. *)
Lemma replays_marks (ms : list move) (b : board) :
  Main.replays ms b ->
  (Main.marks "X" b + Main.marks "O" b = length ms)%nat /\
  Main.marks "X" b
  = (Main.marks "O" b + if Nat.even (length ms) then 0 else 1)%nat.
Proof.
  induction 1 as [|ms b r c b' Hrep [IHsum IHdiff] Hval Hmove].
  - split; reflexivity.
  - destruct (replays_rebuild ms b Hrep) as [_ Hb].
    rewrite (marks_legal_move b b' r c _ "X" Hb Hval Hmove),
      (marks_legal_move b b' r c _ "O" Hb Hval Hmove).
    rewrite length_app. cbn [length].
    rewrite Nat.add_1_r, Nat.even_succ, <- Nat.negb_even.
    unfold turn_after in *.
    destruct (Nat.even (length ms)); cbn [negb] in *;
      repeat case_decide; try done; lia.
Qed.

Lemma winner_marks (b : board) (s : string) :
  board3x3 b -> check_winner b = Ok (Some s) -> (3 <= Main.marks s b)%nat.
Proof.
  intros Hb. rewrite check_winner_winner_in by done. intros [= Hwin].
  explicit_board b. rewrite marks_3x3.
  unfold winner_in, code_lines in Hwin.
  cbn [at_rc lookup list_lookup default from_option] in Hwin.
  cbn [List.find] in Hwin. unfold id in Hwin.
  repeat match type of Hwin with
         | context [if uniformb ?l then _ else _] =>
             let E := fresh "E" in
             destruct (uniformb l) eqn:E;
             [ apply uniformb_complete in E as [t E]; unfold all_three in E;
               cbn beta iota in Hwin; simplify_eq;
               repeat match goal with
                      | |- context [decide (Some ?x = Some ?x)] =>
                          rewrite (decide_True (P := Some x = Some x)) by done
                      end; lia
             | clear E ]
         end.
  discriminate Hwin.
Qed.

(** Four moves or fewer leave no winner and a board that is not full. *)
Lemma replays_no_early_winner (ms : list move) (b : board) :
  Main.replays ms b -> (length ms <= 4)%nat ->
  check_winner b = Ok None /\ is_board_full b = false.
Proof.
  intros Hrep Hlen.
  destruct (replays_rebuild _ _ Hrep) as [_ Hb].
  destruct (replays_marks _ _ Hrep) as [Hsum Hdiff].
  split.
  - destruct (check_winner_total b Hb) as [[s|] Hw]; [exfalso | done].
    pose proof (winner_marks b s Hb Hw) as Hthree.
    destruct (check_winner_plain b _ Hb (replays_plain _ _ Hrep) Hw)
      as [? | [[= ->] | [= ->]]]; [done | |];
      destruct (Nat.even (length ms)); lia.
  - destruct (occupied_full b Hb) as [_ Hfull].
    rewrite (replays_occupied _ _ Hrep) in Hfull.
    destruct (is_board_full b); [| done].
    assert (length ms = 9%nat) by (by apply Hfull). lia.
Qed.

Lemma over_early (ms : list move) (b : board) (w : cell) :
  Main.replays ms b -> (length ms <= 4)%nat ->
  check_winner b = Ok w ->
  w = None /\ Main.over w b = false.
Proof.
  intros Hrep Hlen Hw.
  destruct (replays_no_early_winner ms b Hrep Hlen) as [Hnone Hfull].
  assert (w = None) as -> by congruence.
  split; [done |]. unfold Main.over. by rewrite Hfull.
Qed.

(** ** What a played move leaves behind *)

(** A played move, by its response and the table it leaves: [played] is
    what the request appended to the stored history. *)
Lemma make_move_played (games games' : gmap Z Main.Game)
    (u gid row col : Z) (draw : nat) (g : Main.Game) (b : board)
    (st : Main.GameState) :
  games !! gid = Some g ->
  Main.replays (Main.moves_or_empty g) b ->
  Main.make_move games u gid row col draw = Main.Done (st, games') ->
  let ms := Main.moves_or_empty g in
  let turn := turn_after (length ms) in
  exists played,
    Main.replays (ms ++ played) (Main.gs_board st) /\
    check_winner (Main.gs_board st) = Ok (Main.gs_winner st) /\
    Main.is_over st = Main.over (Main.gs_winner st) (Main.gs_board st) /\
    Main.current_turn st
    = (if Main.is_over st then turn else next_turn turn) /\
    games' = <[gid:=Main.updated g (ms ++ played) (Main.gs_winner st)]> games /\
    ((played = [Move row col turn] /\
      (Main.is_pvp g = true \/ Main.is_over st = true \/ turn = "O")) \/
     (Main.is_pvp g = false /\ turn = "X" /\
      exists r c b1,
        Main.replays (ms ++ [Move row col turn]) b1 /\
        best_ai_move b1 "O" "X" draw = Ok (r, c) /\
        played = [Move row col turn; Move r c "O"])).
Proof.
  intros Hg Hrep Hrun. cbv zeta.
  destruct (make_move_cases games u gid row col draw g b Hg Hrep)
    as [(_ & H) | [(_ & _ & H) | (_ & b1 & w1 & Hrep1 & _ & Hw1 & H)]];
    [congruence.. |].
  destruct H as [[Hwhy H] | (Hpvp & _ & HX & r & c & b2 & w2 & Hai & Hrep2 & Hw2 & H)];
    rewrite H in Hrun; injection Hrun as <- <-; cbn [Main.gs_board
      Main.gs_winner Main.is_over Main.current_turn].
  - exists [Move row col (turn_after (length (Main.moves_or_empty g)))].
    split; [done |]. split; [done |]. split; [done |].
    split; [by destruct (Main.over w1 b1) |]. split; [done |].
    left. by split.
  - exists [Move row col (turn_after (length (Main.moves_or_empty g)));
            Move r c "O"].
    rewrite <- (assoc_L (++)) in Hrep2.
    split; [done |]. split; [done |]. split; [done |].
    split; [by destruct (Main.over w2 b2) |].
    split; [by rewrite <- (assoc_L (++)) |].
    right. split; [done |]. split; [done |]. by exists r, c, b1.
Qed.

(** X8.  When [make_move] plays on a game whose stored history replays,
    the response is computed from the stored history followed by the
    move of the request and, in a game against the selector only, one
    reply of [O]: its board is their replay, its winner is what
    [check_winner] finds on that board, and [is_over] is computed from
    these two.  The row left in the table has the winner of the response,
    the same players and the same mode.  When the stored history was
    empty the row is consistent with the board of the response; when it
    was not, the history of the row is still one that replays to the
    board before the request. *)
Theorem make_move_records_winner_of_response
    (games games' : gmap Z Main.Game) (u gid row col : Z) (draw : nat)
    (g : Main.Game) (b : board) (st : Main.GameState) :
  games !! gid = Some g ->
  Main.replays (Main.moves_or_empty g) b ->
  Main.make_move games u gid row col draw = Main.Done (st, games') ->
  let ms := Main.moves_or_empty g in
  let m := Move row col (turn_after (length ms)) in
  exists g' played,
    games' !! gid = Some g' /\
    (played = [m] \/
     (Main.is_pvp g = false /\ exists r c, played = [m; Move r c "O"])) /\
    Main.replays (ms ++ played) (Main.gs_board st) /\
    check_winner (Main.gs_board st) = Ok (Main.gs_winner st) /\
    Main.is_over st = Main.over (Main.gs_winner st) (Main.gs_board st) /\
    Main.winner g' = Main.gs_winner st /\
    (ms = [] -> Main.consistent g' (Main.gs_board st)) /\
    (ms <> [] -> Main.replays (Main.moves_or_empty g') b) /\
    Main.user_x_id g' = Main.user_x_id g /\
    Main.user_o_id g' = Main.user_o_id g /\
    Main.is_pvp g' = Main.is_pvp g.
Proof.
  intros Hg Hrep Hrun. cbv zeta.
  destruct (make_move_played games games' u gid row col draw g b st
              Hg Hrep Hrun)
    as (played & Hrep' & Hwin & Hover & _ & -> & Hplayed).
  eexists _, played. split; [apply lookup_insert_eq |].
  split.
  { destruct Hplayed as [[-> _] | (Hpvp & _ & r & c & _ & _ & _ & ->)];
      [by left | right; by eauto]. }
  split; [done |]. split; [done |]. split; [done |]. split; [done |].
  unfold Main.consistent. rewrite moves_or_empty_updated.
  split; [| split; [| done]].
  - intros Hnil. rewrite Hnil in *. by split.
  - intros Hne. by destruct (Main.moves_or_empty g).
Qed.

(** The finished game takes one more move: the winner of the row becomes
    [O], its history is still the five moves with which [X] won. *)
Lemma make_move_records_winner_of_response_witness :
  let games : gmap Z Main.Game := {[ 7 := finished_game ]} in
  exists st games' g',
    Main.make_move games 2 7 0 2 0 = Main.Done (st, games') /\
    games' !! 7 = Some g' /\
    Main.winner g' = Some "O" /\
    Main.replays (Main.moves_or_empty g') finished_board /\
    check_winner finished_board = Ok (Some "X").
Proof.
  intros games.
  destruct (Main.make_move games 2 7 0 2 0) as [[st games']| |] eqn:Hrun;
    [| by vm_compute in Hrun..].
  destruct (make_move_records_winner_of_response games games' 2 7 0 2 0
              finished_game finished_board st eq_refl finished_game_replays
              Hrun)
    as (g' & played & Hg' & _ & _ & _ & _ & Hwin & _ & Hold & _).
  exists st, games', g'. split; [done |]. split; [done |].
  split; [| split; [by apply Hold | reflexivity]].
  rewrite Hwin. vm_compute in Hrun. by injection Hrun as <- _.
Defined.

(** X9.  A played move touches one row of the table, and writes the
    history of a game once.  Every other game is as it was.  When the
    stored history is not empty, the [moves] of the row are left as they
    were: the moves of the request are not stored.  When it is empty, the
    game goes on, and the [moves] of the row become the move of the
    request, made by [X], in a game between two players, and that move
    followed by the selector's reply in a game against the selector. *)
Theorem make_move_stores_first_moves_only (games games' : gmap Z Main.Game)
    (u gid row col : Z) (draw : nat) (g : Main.Game) (b : board)
    (st : Main.GameState) :
  games !! gid = Some g ->
  Main.replays (Main.moves_or_empty g) b ->
  Main.make_move games u gid row col draw = Main.Done (st, games') ->
  let ms := Main.moves_or_empty g in
  (forall id, id <> gid -> games' !! id = games !! id) /\
  exists g',
    games' !! gid = Some g' /\
    (ms <> [] -> Main.moves g' = Main.moves g) /\
    (ms = [] ->
     Main.is_over st = false /\
     ((Main.is_pvp g = true /\
       Main.moves g' = Some [Move row col "X"]) \/
      (Main.is_pvp g = false /\
       exists r c b1,
         Main.replays [Move row col "X"] b1 /\
         best_ai_move b1 "O" "X" draw = Ok (r, c) /\
         Main.moves g' = Some [Move row col "X"; Move r c "O"]))).
Proof.
  intros Hg Hrep Hrun. cbv zeta.
  destruct (make_move_played games games' u gid row col draw g b st
              Hg Hrep Hrun)
    as (played & Hrep' & Hwin & Hover & _ & -> & Hplayed).
  split; [intros id Hid; by rewrite lookup_insert_ne |].
  eexists. split; [apply lookup_insert_eq |].
  unfold Main.updated, Main.committed_moves. cbn [Main.moves].
  split.
  - unfold Main.moves_or_empty. by destruct (Main.moves g) as [[|m0 ms0]|].
  - intros Hnil. rewrite Hnil in *. cbn [app length] in *.
    change (turn_after 0) with "X" in *.
    assert (Main.moves g = Some [] \/ Main.moves g = None) as Hstored.
    { unfold Main.moves_or_empty in Hnil.
      destruct (Main.moves g) as [[|m0 ms0]|]; by auto. }
    assert (length played <= 4)%nat as Hlen.
    { destruct Hplayed as [[-> _] | (_ & _ & r & c & b1 & _ & _ & ->)];
        simpl; lia. }
    destruct (over_early played _ _ Hrep' Hlen Hwin) as [_ Hgoes].
    rewrite <- Hover in Hgoes. split; [done |].
    destruct Hplayed
      as [[-> [Hpvp | [Hfin | HO]]] | (Hpvp & _ & r & c & b1 & Hb1 & Hai & ->)];
      [| congruence | discriminate |].
    + left. split; [done |]. by destruct Hstored as [-> | ->].
    + right. split; [done |]. exists r, c, b1.
      split; [done |]. split; [done |]. by destruct Hstored as [-> | ->].
Qed.

(** The finished game takes one more move, and its row keeps the five
    moves it had. *)
Lemma make_move_stores_first_moves_only_witness :
  let games : gmap Z Main.Game := {[ 7 := finished_game ]} in
  exists st games' g',
    Main.make_move games 2 7 0 2 0 = Main.Done (st, games') /\
    games' !! 7 = Some g' /\
    Main.moves g' = Main.moves finished_game /\
    length (Main.moves_or_empty g') = 5%nat.
Proof.
  intros games.
  destruct (Main.make_move games 2 7 0 2 0) as [[st games']| |] eqn:Hrun;
    [| by vm_compute in Hrun..].
  destruct (make_move_stores_first_moves_only games games' 2 7 0 2 0
              finished_game finished_board st eq_refl finished_game_replays
              Hrun) as (_ & g' & Hg' & Hkept & _).
  assert (Main.moves g' = Main.moves finished_game) as Hmoves
    by (by apply Hkept).
  exists st, games', g'. split; [done |]. split; [done |].
  split; [done |]. unfold Main.moves_or_empty. by rewrite Hmoves.
Defined.

(** ** The turn the response reports *)



(** ** The tables the handlers can produce *)

Lemma first_moves_length (g : Main.Game) :
  first_moves g -> (length (Main.moves_or_empty g) <= 2)%nat.
Proof.
  intros [-> | [(_ & r & c & ->) | (_ & r & c & r' & c' & ->)]]; simpl; lia.
Qed.

(** What holds of every game in a table the handlers produced. *)
Lemma reachable_rows (games : gmap Z Main.Game) (gid : Z) (g : Main.Game) :
  Main.reachable games ->
  games !! gid = Some g ->
  (exists b, Main.replays (Main.moves_or_empty g) b) /\
  first_moves g /\
  Main.winner g = None /\
  Main.user_o_id g = None /\
  exists x, Main.user_x_id g = Some x.
Proof.
  intros Hreach. revert gid g.
  induction Hreach as [|games u pvp _ IH|games u gid0 row col draw st games' _ IH Hrun];
    intros gid g Hg.
  - by rewrite lookup_empty in Hg.
  - unfold Main.start_game in Hg. cbn [snd] in Hg.
    destruct (decide (fresh (dom games) = gid)) as [<- | Hne].
    + rewrite lookup_insert_eq in Hg. injection Hg as <-.
      split; [exists empty_board; constructor |].
      split; [by left |]. split; [done |].
      split; [by destruct pvp | by eexists].
    + rewrite lookup_insert_ne in Hg by done. by apply (IH gid).
  - destruct (decide (gid0 = gid)) as [-> | Hne].
    2:{ destruct (games !! gid0) as [g0|] eqn:Hg0;
          [| unfold Main.make_move in Hrun; by rewrite Hg0 in Hrun].
        destruct (IH gid0 g0 Hg0) as ([b Hrep] & _).
        destruct (make_move_played games games' u gid0 row col draw g0 b st
                    Hg0 Hrep Hrun) as (played & _ & _ & _ & _ & -> & _).
        rewrite lookup_insert_ne in Hg by done. by apply (IH gid). }
    destruct (games !! gid) as [g0|] eqn:Hg0;
      [| unfold Main.make_move in Hrun; by rewrite Hg0 in Hrun].
    destruct (IH gid g0 Hg0) as ([b Hrep] & Hfirst & _ & HO & HX).
    pose proof (first_moves_length g0 Hfirst) as Hlen0.
    destruct (make_move_played games games' u gid row col draw g0 b st
                Hg0 Hrep Hrun)
      as (played & Hrep' & Hwin & Hover & _ & -> & Hplayed).
    rewrite lookup_insert_eq in Hg. injection Hg as <-.
    assert (length played <= 2)%nat as Hlen.
    { destruct Hplayed as [[-> _] | (_ & _ & r & c & b1 & _ & _ & ->)];
        simpl; lia. }
    assert (length (Main.moves_or_empty g0 ++ played) <= 4)%nat as Hfew
      by (rewrite length_app; lia).
    destruct (over_early _ _ _ Hrep' Hfew Hwin) as [Hnone Hgoes].
    rewrite <- Hover in Hgoes.
    unfold first_moves. rewrite moves_or_empty_updated.
    cbn [Main.updated Main.winner Main.user_o_id Main.user_x_id Main.is_pvp].
    destruct Hfirst as [Hnil | Hsome].
    + rewrite Hnil in *. cbn [app length] in *.
      change (turn_after 0) with "X" in *.
      split; [by exists (Main.gs_board st) |]. split; [| done].
      destruct Hplayed
        as [[-> [Hpvp | [Hfin | HX']]]
           | (Hpvp & _ & r & c & b1 & _ & _ & ->)];
        [| congruence | discriminate |].
      * right; left. split; [done |]. by exists row, col.
      * right; right. split; [done |]. by exists row, col, r, c.
    + assert (exists m0 ms0, Main.moves_or_empty g0 = m0 :: ms0)
        as (m0 & ms0 & Hms).
      { destruct Hsome as [(_ & r & c & ->) | (_ & r & c & r' & c' & ->)];
          by eauto. }
      rewrite Hms in *. split; [by exists b |]. split; [| done].
      by right.
Qed.

Lemma reachable_invariant (games : gmap Z Main.Game) (gid : Z) (g : Main.Game) :
  Main.reachable games ->
  games !! gid = Some g ->
  (exists b, Main.consistent g b) /\
  Main.user_o_id g = None /\
  exists x, Main.user_x_id g = Some x.
Proof.
  intros Hreach Hg.
  destruct (reachable_rows games gid g Hreach Hg)
    as ([b Hrep] & Hfirst & Hwin & HO & HX).
  split; [| done]. exists b. split; [done |]. rewrite Hwin.
  apply (replays_no_early_winner _ _ Hrep).
  pose proof (first_moves_length g Hfirst). lia.
Qed.

(** X14.  In every table that [start_game] and [make_move] can produce
    from the empty one, each game has a history that replays from the
    empty board, of nine moves at most, each made on an empty cell by
    [X] and [O] in turn; its winner is what [check_winner] finds on the
    replayed board; it has an [X] player and no [O] player. *)
Theorem reachable_games_are_consistent (games : gmap Z Main.Game) (gid : Z)
    (g : Main.Game) :
  Main.reachable games ->
  games !! gid = Some g ->
  exists b x,
    Main.replays (Main.moves_or_empty g) b /\
    rebuild (Main.moves_or_empty g)
    = Ok (b, turn_after (length (Main.moves_or_empty g))) /\
    check_winner b = Ok (Main.winner g) /\
    (length (Main.moves_or_empty g) <= 9)%nat /\
    Main.user_x_id g = Some x /\ Main.user_o_id g = None.
Proof.
  intros Hreach Hg.
  destruct (reachable_invariant games gid g Hreach Hg)
    as ([b [Hrep Hwin]] & HO & x & HX).
  destruct (replays_rebuild _ _ Hrep) as [Hrun Hb].
  exists b, x. repeat split; try done.
  rewrite <- (replays_occupied _ _ Hrep). by apply occupied_full.
Qed.

Lemma played_table_reachable : Main.reachable played_table.
Proof.
  assert (exists st,
            Main.make_move (Main.start_game ∅ 1 false).2 1
              (fresh (dom (∅ : gmap Z Main.Game))) 1 1 0
            = Main.Done (st, played_table)) as [st Hrun].
  { unfold played_table.
    destruct (Main.make_move _ _ _ _ _ _) as [[st games]| |] eqn:E;
      [by exists st | by vm_compute in E..]. }
  eapply Main.reachable_move; [| exact Hrun].
  apply Main.reachable_start, Main.reachable_empty.
Qed.

Lemma reachable_games_are_consistent_witness :
  exists gid g b,
    Main.reachable played_table /\
    played_table !! gid = Some g /\
    Main.replays (Main.moves_or_empty g) b /\
    length (Main.moves_or_empty g) = 2%nat.
Proof.
  destruct (played_table !! fresh (dom (∅ : gmap Z Main.Game))) as [g|] eqn:Hg;
    [| by vm_compute in Hg].
  destruct (reachable_games_are_consistent played_table _ g
              played_table_reachable Hg) as (b & x & Hrep & _).
  exists (fresh (dom (∅ : gmap Z Main.Game))), g, b.
  repeat split; try done; [apply played_table_reachable |].
  vm_compute in Hg. by injection Hg as <-.
Defined.

(** X10.  On every table the handlers can produce, a [make_move] request
    never ends with an uncaught exception, and is answered 404 exactly
    when the table has no game under the key.  When [X] is to move (an
    even number of stored moves), the answer is 403 exactly for the users
    other than the one who started the game; when [O] is to move, no user
    at all is answered 403: [user_o_id] is never set, and the turn check
    skips a missing [O] player. *)
Theorem make_move_on_reachable_table (games : gmap Z Main.Game)
    (u gid row col : Z) (draw : nat) :
  Main.reachable games ->
  let run := Main.make_move games u gid row col draw in
  (forall e, run <> Main.Crash e) /\
  (run = Main.HTTPException 404 "Game not found" <-> games !! gid = None) /\
  (forall g, games !! gid = Some g ->
     let n := length (Main.moves_or_empty g) in
     (Nat.even n = true ->
      (run = Main.HTTPException 403 "Not your turn" <->
       Main.user_x_id g <> Some u)) /\
     (Nat.even n = false ->
      run <> Main.HTTPException 403 "Not your turn")).
Proof.
  intros Hreach. cbv zeta.
  destruct (games !! gid) as [g|] eqn:Hg.
  2:{ unfold Main.make_move. rewrite Hg. by repeat split. }
  destruct (reachable_invariant games gid g Hreach Hg)
    as ([b [Hrep _]] & HO & x & HX).
  pose proof (make_move_cases games u gid row col draw g b Hg Hrep) as Hcases.
  cbv zeta in Hcases.
  assert (Main.not_your_turn g (turn_after (length (Main.moves_or_empty g))) u
          = if Nat.even (length (Main.moves_or_empty g))
            then bool_decide (Main.user_x_id g <> Some u) else false) as Hturn.
  { unfold Main.not_your_turn, turn_after, Main.differs. rewrite HO.
    by destruct (Nat.even _); simpl; rewrite ?orb_false_r. }
  rewrite Hturn in Hcases.
  destruct Hcases
    as [(Ht & ->) | [(Ht & _ & ->) | (Ht & b1 & w1 & _ & _ & _ & Hrun)]].
  - split; [done |]. split; [done |]. intros g' [= <-].
    destruct (Nat.even _); [| done]. apply bool_decide_eq_true in Ht.
    split; [by intros _ | done].
  - split; [done |]. split; [done |]. intros g' [= <-].
    destruct (Nat.even _); [| done]. apply bool_decide_eq_false in Ht.
    split; [| done]. intros _. split; [done | intros ?; by destruct Ht].
  - assert (exists st games',
              Main.make_move games u gid row col draw = Main.Done (st, games'))
      as (st & games' & ->).
    { destruct Hrun as [[_ ->] | (_ & _ & _ & r & c & b2 & w2 & _ & _ & _ & ->)];
        by eauto. }
    split; [done |]. split; [done |]. intros g' [= <-].
    destruct (Nat.even _); [| done].
    apply bool_decide_eq_false in Ht. split; [| done]. intros _.
    split; [done | intros ?; by destruct Ht].
Qed.

(** On the table with one game and two stored moves, user 2, who did not
    start the game, is refused; had [X] already moved he would not be. *)
Lemma make_move_on_reachable_table_witness :
  Main.reachable played_table /\
  Main.make_move played_table 2 (fresh (dom (∅ : gmap Z Main.Game))) 0 0 0
  = Main.HTTPException 403 "Not your turn".
Proof.
  split; [apply played_table_reachable |].
  destruct (played_table !! fresh (dom (∅ : gmap Z Main.Game))) as [g|] eqn:Hg;
    [| by vm_compute in Hg].
  destruct (make_move_on_reachable_table played_table 2
              (fresh (dom (∅ : gmap Z Main.Game))) 0 0 0
              played_table_reachable) as (_ & _ & Hturn).
  destruct (Hturn g Hg) as [Heven _].
  vm_compute in Hg. injection Hg as <-.
  apply Heven; [reflexivity | discriminate].
Defined.

(** ** No game is ever finished *)

(** X23.  In every table that [start_game] and [make_move] can produce
    from the empty one, a game holds the moves of its first request and
    no other: its history is empty, or the one move of [X] in a game
    between two players, or the move of [X] and the selector's reply in
    a game against the selector; and its winner is [None]. *)
Theorem reachable_games_hold_first_moves (games : gmap Z Main.Game)
    (gid : Z) (g : Main.Game) :
  Main.reachable games ->
  games !! gid = Some g ->
  first_moves g /\
  (length (Main.moves_or_empty g) <= 2)%nat /\
  Main.winner g = None.
Proof.
  intros Hreach Hg.
  destruct (reachable_rows games gid g Hreach Hg) as (_ & Hfirst & Hwin & _).
  split; [done |]. split; [by apply first_moves_length | done].
Qed.

Lemma reachable_games_hold_first_moves_witness :
  exists g,
    Main.reachable played_table /\
    played_table !! fresh (dom (∅ : gmap Z Main.Game)) = Some g /\
    Main.is_pvp g = false /\
    length (Main.moves_or_empty g) = 2%nat /\
    Main.winner g = None.
Proof.
  destruct (played_table !! fresh (dom (∅ : gmap Z Main.Game))) as [g|] eqn:Hg;
    [| by vm_compute in Hg].
  destruct (reachable_games_hold_first_moves played_table _ g
              played_table_reachable Hg) as (_ & _ & Hwin).
  exists g. split; [apply played_table_reachable |]. split; [done |].
  split; [| split; [| exact Hwin]];
    vm_compute in Hg; by injection Hg as <-.
Defined.

(** X24.  On every table the handlers can produce, a played move never
    ends the game: the board of the response has four marks at most,
    the response has no winner and says the game goes on, with the
    player other than the one of the request to move; and the table it
    leaves is one the handlers can produce. *)
Theorem make_move_never_ends_a_game (games games' : gmap Z Main.Game)
    (u gid row col : Z) (draw : nat) (st : Main.GameState) :
  Main.reachable games ->
  Main.make_move games u gid row col draw = Main.Done (st, games') ->
  Main.reachable games' /\
  Main.is_over st = false /\
  Main.gs_winner st = None /\
  (Main.occupied (Main.gs_board st) <= 4)%nat /\
  exists g,
    games !! gid = Some g /\
    Main.current_turn st = turn_after (S (length (Main.moves_or_empty g))).
Proof.
  intros Hreach Hrun.
  split; [by eapply Main.reachable_move |].
  destruct (games !! gid) as [g|] eqn:Hg;
    [| unfold Main.make_move in Hrun; by rewrite Hg in Hrun].
  destruct (reachable_rows games gid g Hreach Hg) as ([b Hrep] & Hfirst & _).
  pose proof (first_moves_length g Hfirst) as Hlen0.
  destruct (make_move_played games games' u gid row col draw g b st
              Hg Hrep Hrun)
    as (played & Hrep' & Hwin & Hover & Hturn & _ & Hplayed).
  assert (length played <= 2)%nat as Hlen.
  { destruct Hplayed as [[-> _] | (_ & _ & r & c & b1 & _ & _ & ->)];
      simpl; lia. }
  assert (length (Main.moves_or_empty g ++ played) <= 4)%nat as Hfew
    by (rewrite length_app; lia).
  destruct (over_early _ _ _ Hrep' Hfew Hwin) as [Hnone Hgoes].
  rewrite <- Hover in Hgoes.
  split; [done |]. split; [done |].
  split; [by rewrite (replays_occupied _ _ Hrep') |].
  exists g. split; [done |].
  by rewrite Hturn, Hgoes, next_turn_turn_after.
Qed.

(** A second request on the game of the table with two stored moves. *)
Lemma make_move_never_ends_a_game_witness :
  exists st games',
    Main.reachable played_table /\
    Main.make_move played_table 1 (fresh (dom (∅ : gmap Z Main.Game))) 2 2 0
    = Main.Done (st, games') /\
    Main.is_over st = false /\
    Main.occupied (Main.gs_board st) = 4%nat.
Proof.
  destruct (Main.make_move played_table 1
              (fresh (dom (∅ : gmap Z Main.Game))) 2 2 0)
    as [[st games']| |] eqn:Hrun; [| by vm_compute in Hrun..].
  destruct (make_move_never_ends_a_game played_table games' 1 _ 2 2 0 st
              played_table_reachable Hrun) as (_ & Hgoes & _).
  exists st, games'. split; [apply played_table_reachable |].
  split; [done |]. split; [exact Hgoes |].
  vm_compute in Hrun. by injection Hrun as <- _.
Defined.

(** * [main.py]: [user_stats] *)

Lemma reachable_winner (games : gmap Z Main.Game) (gid : Z) (g : Main.Game) :
  Main.reachable games -> games !! gid = Some g -> plain_cell (Main.winner g).
Proof.
  intros Hreach Hg.
  destruct (reachable_invariant games gid g Hreach Hg)
    as ([b [Hrep Hwin]] & _).
  destruct (replays_rebuild _ _ Hrep) as [_ Hb].
  eapply check_winner_plain; [done | by eapply replays_plain | done].
Qed.

(** ** The counters *)

Lemma tally_step (uid : Z) (g : Main.Game) (w d l : Z) :
  Main.user_x_id g = Some uid ->
  plain_cell (Main.winner g) ->
  Main.tally uid (w, d, l) g
  = (w + (if decide (Main.winner g = Some "X") then 1 else 0),
     d + (if decide (Main.winner g = None) then 1 else 0),
     l + (if decide (Main.winner g = Some "O") then 1 else 0)).
Proof.
  intros Hx Hw. unfold Main.tally.
  rewrite (bool_decide_eq_true_2 _ Hx).
  destruct Hw as [-> | [-> | ->]]; vm_compute; f_equal; try f_equal;
    by destruct w, d, l.
Qed.

Lemma tally_counts (uid : Z) (gs : list Main.Game) (w d l : Z) :
  Forall (fun g => Main.user_x_id g = Some uid /\ plain_cell (Main.winner g))
    gs ->
  foldl (Main.tally uid) (w, d, l) gs
  = (w + Z.of_nat (length (Main.with_winner (Some "X") gs)),
     d + Z.of_nat (length (Main.with_winner None gs)),
     l + Z.of_nat (length (Main.with_winner (Some "O") gs))) /\
  (length (Main.with_winner (Some "X") gs)
   + length (Main.with_winner None gs)
   + length (Main.with_winner (Some "O") gs) = length gs)%nat.
Proof.
  intros Hgs. revert w d l.
  induction Hgs as [|g gs [Hx Hw] _ IH]; intros w d l.
  - simpl. split; [| done]. f_equal; [f_equal |]; lia.
  - cbn [foldl]. rewrite (tally_step uid g w d l Hx Hw).
    destruct (IH (w + (if decide (Main.winner g = Some "X") then 1 else 0))
                 (d + (if decide (Main.winner g = None) then 1 else 0))
                 (l + (if decide (Main.winner g = Some "O") then 1 else 0)))
      as [-> Hlen].
    unfold Main.with_winner in *. rewrite !filter_cons.
    destruct Hw as [Hw | [Hw | Hw]]; rewrite Hw;
      repeat case_decide; try done; simpl length;
      (split; [f_equal; [f_equal |]; lia | lia]).
Qed.

Lemma filter_agree {A} (P Q : A -> Prop) `{!forall x, Decision (P x)}
    `{!forall x, Decision (Q x)} (l : list A) :
  Forall (fun x => P x <-> Q x) l -> filter P l = filter Q l.
Proof.
  induction 1 as [|x l Hx _ IH]; [done |].
  rewrite !filter_cons, IH. by repeat case_decide; tauto.
Qed.

Lemma elem_of_game_rows (games : gmap Z Main.Game) (g : Main.Game) :
  g ∈ Main.game_rows games <-> exists id, games !! id = Some g.
Proof.
  unfold Main.game_rows. rewrite list_elem_of_fmap. split.
  - intros ([id g'] & -> & Hin). exists id. by apply elem_of_map_to_list.
  - intros [id Hid]. exists (id, g). split; [done |].
    by apply elem_of_map_to_list.
Qed.

Lemma user_stats_by_counts (games : gmap Z Main.Game) (u : Main.User) :
  Main.reachable games ->
  let mine := Main.started_by (Main.u_id u) games in
  Main.user_stats games u
  = {| Main.us_username := Main.username u;
       Main.games_played := Z.of_nat (length mine);
       Main.wins := Z.of_nat (length (Main.with_winner (Some "X") mine));
       Main.draws := Z.of_nat (length (Main.with_winner None mine));
       Main.losses := Z.of_nat (length (Main.with_winner (Some "O") mine)) |}
  /\ (length (Main.with_winner (Some "X") mine)
      + length (Main.with_winner None mine)
      + length (Main.with_winner (Some "O") mine) = length mine)%nat.
Proof.
  intros Hreach. cbv zeta. unfold Main.user_stats.
  assert (filter (Main.plays (Main.u_id u)) (Main.game_rows games)
          = Main.started_by (Main.u_id u) games) as ->.
  { apply filter_agree, Forall_forall. intros g [id Hg]%elem_of_game_rows.
    destruct (reachable_invariant games id g Hreach Hg) as (_ & HO & _).
    unfold Main.plays. rewrite HO. split; [intros [|]; done | by left]. }
  destruct (tally_counts (Main.u_id u) (Main.started_by (Main.u_id u) games)
              0 0 0) as [-> Hlen]; [| done].
  apply Forall_forall. intros g Hg. unfold Main.started_by in Hg.
  apply list_elem_of_filter in Hg as [Hx [id Hg]%elem_of_game_rows].
  split; [done |]. by eapply reachable_winner.
Qed.

(** ** What the statistics count *)



(** X17.  A game counts as a draw from the moment it is started: after
    [start_game] the caller's statistics show one more game played and
    one more draw, and the same wins and losses. *)
Theorem start_game_counts_as_draw (games : gmap Z Main.Game) (u : Main.User)
    (pvp : bool) :
  Main.reachable games ->
  let s := Main.user_stats games u in
  let s' := Main.user_stats (Main.start_game games (Main.u_id u) pvp).2 u in
  Main.games_played s' = Main.games_played s + 1 /\
  Main.draws s' = Main.draws s + 1 /\
  Main.wins s' = Main.wins s /\
  Main.losses s' = Main.losses s.
Proof.
  intros Hreach. cbv zeta.
  destruct (user_stats_by_counts games u Hreach) as [-> _].
  destruct (user_stats_by_counts _ u
              (Main.reachable_start games (Main.u_id u) pvp Hreach)) as [-> _].
  cbn [Main.games_played Main.draws Main.wins Main.losses].
  unfold Main.start_game. cbn [snd].
  set (g := {| Main.user_x_id := Some (Main.u_id u);
               Main.user_o_id := if pvp then None else None;
               Main.moves := Some []; Main.winner := None;
               Main.is_pvp := pvp |}).
  assert (Main.started_by (Main.u_id u) (<[fresh (dom games):=g]> games)
          ≡ₚ g :: Main.started_by (Main.u_id u) games) as Hperm.
  { unfold Main.started_by, Main.game_rows.
    rewrite map_to_list_insert by apply not_elem_of_dom, is_fresh.
    rewrite fmap_cons. cbn [snd]. by rewrite filter_cons_True. }
  unfold Main.with_winner. rewrite !Hperm, !filter_cons.
  repeat case_decide; try done. simpl length. lia.
Qed.

Lemma start_game_counts_as_draw_witness :
  let ann := {| Main.u_id := 1; Main.username := "ann";
                Main.hashed_password := "" |} in
  Main.reachable ∅ /\
  Main.draws (Main.user_stats (Main.start_game ∅ 1 true).2 ann)
  = Main.draws (Main.user_stats ∅ ann) + 1.
Proof.
  intros ann. split; [constructor |].
  by destruct (start_game_counts_as_draw ∅ ann true Main.reachable_empty)
    as (_ & Hdraws & _).
Defined.

(** * [main.py]: [register_user] and [leaderboard] *)

(** ** Registration *)

Lemma elem_of_user_rows (users : gmap Z Main.User) (u : Main.User) :
  u ∈ Main.user_rows users <-> exists id, users !! id = Some u.
Proof.
  unfold Main.user_rows. rewrite list_elem_of_fmap. split.
  - intros ([id u'] & -> & Hin). exists id. by apply elem_of_map_to_list.
  - intros [id Hid]. exists (id, u). split; [done |].
    by apply elem_of_map_to_list.
Qed.

Lemma head_filter_None {A} (P : A -> Prop) `{!forall x, Decision (P x)}
    (l : list A) :
  head (filter P l) = None <-> forall x, x ∈ l -> ~ P x.
Proof.
  rewrite head_None. split.
  - intros Hnil x Hx HP. by eapply filter_nil_not_elem_of.
  - intros Hall. induction l as [|x l IH]; [done |].
    rewrite filter_cons_False by (apply Hall; left).
    apply IH. intros y Hy. apply Hall. by right.
Qed.

(** X18.  [register_user] answers 409 exactly when a row of [users] has
    the requested name.  When no row has it, the request succeeds: it
    adds one row under a key the table did not have, with the requested
    name and the hash of the password, returns that key and name, and
    leaves every existing row as it was; if names were unique in the
    table they still are. *)
Theorem register_user_keeps_names_unique (hash : string -> string)
    (users : gmap Z Main.User) (reg : Main.UserRegister) :
  (Main.register_user hash users reg
   = Main.HTTPException 409 "Username taken" <->
   exists id u, users !! id = Some u /\
                Main.username u = Main.reg_username reg) /\
  ((forall id u, users !! id = Some u ->
                 Main.username u <> Main.reg_username reg) ->
   exists id users',
     users !! id = None /\
     users' = <[id:={| Main.u_id := id;
                       Main.username := Main.reg_username reg;
                       Main.hashed_password :=
                         hash (Main.reg_password reg) |}]> users /\
     Main.register_user hash users reg
     = Main.Done ({| Main.out_id := id;
                     Main.out_username := Main.reg_username reg |}, users') /\
     users ⊆ users' /\
     (Main.unique_names users -> Main.unique_names users')).
Proof.
  unfold Main.register_user.
  destruct (head _) as [u|] eqn:Hhead.
  - apply head_Some_elem_of, list_elem_of_filter in Hhead as [Hname Hin].
    apply elem_of_user_rows in Hin as [id Hid].
    split; [split; [intros _; by exists id, u | done] |].
    intros Hfree. by destruct (Hfree id u Hid).
  - rewrite head_filter_None in Hhead. split.
    + split; [done |]. intros (id & u & Hid & Hname).
      destruct (Hhead u); [apply elem_of_user_rows; by exists id | done].
    + intros _.
      assert (users !! fresh (dom users) = None) as Hfresh
        by apply not_elem_of_dom, is_fresh.
      exists (fresh (dom users)). eexists. split; [done |].
      split; [reflexivity |]. split; [done |].
      split; [by apply insert_subseteq |].
      intros Huniq i j u v Hi Hj Hname.
      destruct (decide (fresh (dom users) = i)) as [<- | Hi'],
        (decide (fresh (dom users) = j)) as [<- | Hj']; [done | | |].
      * rewrite lookup_insert_eq in Hi. rewrite lookup_insert_ne in Hj by done.
        injection Hi as <-. simpl in Hname.
        destruct (Hhead v); [apply elem_of_user_rows; by exists j | done].
      * rewrite lookup_insert_eq in Hj. rewrite lookup_insert_ne in Hi by done.
        injection Hj as <-. simpl in Hname.
        destruct (Hhead u); [apply elem_of_user_rows; by exists i | done].
      * rewrite lookup_insert_ne in Hi, Hj by done. by eapply Huniq.
Qed.

(** With [ann] in the table, [ann] is refused and [bob] is registered. *)
Lemma register_user_keeps_names_unique_witness :
  let ann := {| Main.reg_username := "ann"; Main.reg_password := "pw" |} in
  let bob := {| Main.reg_username := "bob"; Main.reg_password := "pw" |} in
  let users : gmap Z Main.User :=
    {[ 1 := {| Main.u_id := 1; Main.username := "ann";
               Main.hashed_password := "#pw" |} ]} in
  (exists id u, users !! id = Some u /\
                Main.username u = Main.reg_username ann) /\
  Main.register_user (String.append "#") users ann
  = Main.HTTPException 409 "Username taken" /\
  (forall id u, users !! id = Some u ->
                Main.username u <> Main.reg_username bob) /\
  exists id users',
    Main.register_user (String.append "#") users bob
    = Main.Done ({| Main.out_id := id; Main.out_username := "bob" |}, users') /\
    users' !! id
    = Some {| Main.u_id := id; Main.username := "bob";
              Main.hashed_password := "#pw" |} /\
    users ⊆ users'.
Proof.
  intros ann bob users.
  assert (exists id u, users !! id = Some u /\
                       Main.username u = Main.reg_username ann) as Htaken
    by (by exists 1, {| Main.u_id := 1; Main.username := "ann";
                        Main.hashed_password := "#pw" |}).
  assert (forall id u, users !! id = Some u ->
                       Main.username u <> Main.reg_username bob) as Hfree.
  { intros id u Hid. subst users.
    apply lookup_singleton_Some in Hid as [_ <-]. discriminate. }
  split; [exact Htaken |].
  split;
    [by apply (register_user_keeps_names_unique (String.append "#") users ann) |].
  split; [exact Hfree |].
  destruct (register_user_keeps_names_unique (String.append "#") users bob)
    as [_ Hdone].
  destruct (Hdone Hfree) as (id & users' & _ & -> & Hrun & Hsub & _).
  eexists id, _. split; [exact Hrun |].
  split; [apply lookup_insert_eq | exact Hsub].
Defined.

(** ** Dictionaries *)


Lemma dict_get_is_Some (d : Main.dict) (k : string) :
  is_Some (Main.dict_get d k) <-> k ∈ d.*1.
Proof.
  induction d as [|[k' v'] d IH]; simpl.
  - split; [by intros [? ?] | by intros ?%elem_of_nil].
  - destruct (String.eqb_spec k' k) as [-> | Hne].
    + split; [intros _; left | by eexists].
    + rewrite IH, elem_of_cons. split; [by right |].
      intros [Heq | Hin]; [by destruct Hne | done].
Qed.

Lemma dict_get_set (d : Main.dict) (k k' : string) (v : Z) :
  Main.dict_get (Main.dict_set d k v) k'
  = if decide (k = k') then Some v else Main.dict_get d k'.
Proof.
  induction d as [|[k0 v0] d IH]; simpl.
  - destruct (String.eqb_spec k k'); by case_decide.
  - destruct (String.eqb_spec k0 k) as [-> | Hne]; simpl.
    + destruct (String.eqb_spec k k'); by case_decide.
    + destruct (String.eqb_spec k0 k') as [-> | Hne'].
      * by rewrite decide_False by congruence.
      * apply IH.
Qed.

Lemma dict_set_keys (d : Main.dict) (k : string) (v : Z) :
  (Main.dict_set d k v).*1 = if decide (k ∈ d.*1) then d.*1 else d.*1 ++ [k].
Proof.
  induction d as [|[k0 v0] d IH].
  - destruct (decide (k ∈ ([] : Main.dict).*1)) as [Hin | _]; [| done].
    by apply elem_of_nil in Hin.
  - cbn [Main.dict_set]. rewrite !fmap_cons. cbn [fst].
    destruct (String.eqb_spec k0 k) as [-> | Hne].
    + rewrite fmap_cons. cbn [fst].
      destruct (decide (k ∈ k :: d.*1)) as [_ | Hout]; [done |].
      destruct Hout. left.
    + rewrite fmap_cons, IH. cbn [fst].
      destruct (decide (k ∈ d.*1)) as [Hin | Hin],
        (decide (k ∈ k0 :: d.*1)) as [Hin' | Hin']; try done.
      * destruct Hin'. by right.
      * apply elem_of_cons in Hin' as [-> | ?]; done.
Qed.

Lemma dict_set_NoDup (d : Main.dict) (k : string) (v : Z) :
  NoDup d.*1 -> NoDup (Main.dict_set d k v).*1.
Proof.
  intros Hd. rewrite dict_set_keys. case_decide; [done |].
  apply NoDup_app. split; [done |]. split; [| apply NoDup_singleton].
  intros x Hx ->%list_elem_of_singleton. done.
Qed.

(** The dictionary [leaderboard] starts from: every name once, at 0. *)
Lemma win_counts_init (us : list Main.User) (d : Main.dict) :
  NoDup d.*1 ->
  let d' := foldl (fun d u => Main.dict_set d (Main.username u) 0) d us in
  NoDup d'.*1 /\
  (forall k, k ∈ d'.*1 <-> k ∈ d.*1 \/ k ∈ Main.username <$> us) /\
  (forall k, k ∈ Main.username <$> us -> Main.dict_get d' k = Some 0) /\
  (forall k, k ∉ Main.username <$> us ->
             Main.dict_get d' k = Main.dict_get d k).
Proof.
  revert d. induction us as [|u us IH]; intros d Hd; simpl.
  - split; [done |]. split; [| split; [| done]].
    + intros k. rewrite elem_of_nil. tauto.
    + intros k Hk. by apply elem_of_nil in Hk.
  - destruct (IH (Main.dict_set d (Main.username u) 0))
      as (Hnd & Hkeys & Hin & Hout); [by apply dict_set_NoDup |].
    split; [done |]. split; [| split].
    + intros k. rewrite Hkeys, dict_set_keys, elem_of_cons.
      case_decide; [intuition (subst; auto) |].
      rewrite elem_of_app, list_elem_of_singleton. intuition (subst; auto).
    + intros k Hk.
      destruct (decide (k ∈ Main.username <$> us)) as [Hk' | Hk'];
        [by apply Hin |].
      rewrite Hout by done. apply elem_of_cons in Hk as [-> | ?]; [| done].
      rewrite dict_get_set. by rewrite decide_True.
    + intros k Hk. rewrite not_elem_of_cons in Hk. destruct Hk as [Hne Hk].
      rewrite Hout by done. rewrite dict_get_set.
      by rewrite decide_False by congruence.
Qed.

(** ** Crediting wins *)

Lemma occurrences_app (k : string) (ks ks' : list string) :
  Main.occurrences k (ks ++ ks')
  = Main.occurrences k ks + Main.occurrences k ks'.
Proof.
  unfold Main.occurrences. rewrite filter_app, length_app. lia.
Qed.

Lemma dict_incr_counts (d : Main.dict) (k : string) :
  k ∈ d.*1 ->
  exists d',
    Main.dict_incr d k = Main.Done d' /\ d'.*1 = d.*1 /\
    forall k' v, Main.dict_get d k' = Some v ->
                 Main.dict_get d' k' = Some (v + Main.occurrences k' [k]).
Proof.
  intros Hk. pose proof Hk as [v Hv]%dict_get_is_Some.
  unfold Main.dict_incr. rewrite Hv. eexists. split; [done |]. split.
  - rewrite dict_set_keys. by rewrite decide_True.
  - intros k' v' Hv'. rewrite dict_get_set. unfold Main.occurrences.
    rewrite filter_cons, filter_nil. cbv beta.
    destruct (decide (k = k')) as [-> | Hne].
    + rewrite Hv in Hv'. by injection Hv' as ->.
    + rewrite Hv'. f_equal. simpl. lia.
Qed.

Lemma credit_counts (users : gmap Z Main.User) (symbol : string)
    (player : option Z) (g : Main.Game) (d : Main.dict) :
  (forall id u, users !! id = Some u -> Main.username u ∈ d.*1) ->
  exists d',
    Main.credit users symbol player g d = Main.Done d' /\ d'.*1 = d.*1 /\
    forall k v,
      Main.dict_get d k = Some v ->
      Main.dict_get d' k
      = Some (v + Main.occurrences k (Main.credited_as users symbol player g)).
Proof.
  intros Hkeys. unfold Main.credit, Main.credited_as.
  assert (forall k v, Main.dict_get d k = Some v ->
                      Main.dict_get d k = Some (v + Main.occurrences k []))
    as Hsame.
  { intros k v ->. f_equal. unfold Main.occurrences. simpl. lia. }
  destruct (_ && _); [| by exists d].
  destruct player as [id|]; simpl; [| by exists d].
  destruct (users !! id) as [u|] eqn:Hu; [| by exists d].
  apply dict_incr_counts. by eapply Hkeys.
Qed.

Lemma credit_all_counts (users : gmap Z Main.User) (gs : list Main.Game)
    (d : Main.dict) :
  (forall id u, users !! id = Some u -> Main.username u ∈ d.*1) ->
  exists d',
    Main.credit_all users gs d = Main.Done d' /\ d'.*1 = d.*1 /\
    forall k v,
      Main.dict_get d k = Some v ->
      Main.dict_get d' k
      = Some (v + Main.occurrences k (concat (Main.credited users <$> gs))).
Proof.
  revert d. induction gs as [|g gs IH]; intros d Hkeys.
  - exists d. split; [done |]. split; [done |]. intros k v ->.
    f_equal. unfold Main.occurrences. simpl. lia.
  - cbn [Main.credit_all].
    destruct (credit_counts users "X" (Main.user_x_id g) g d Hkeys)
      as (d1 & -> & Hk1 & Hg1).
    cbn [mbind Main.outcome_bind].
    destruct (credit_counts users "O" (Main.user_o_id g) g d1)
      as (d2 & -> & Hk2 & Hg2); [by rewrite Hk1 |].
    cbn [mbind Main.outcome_bind].
    destruct (IH d2) as (d3 & -> & Hk3 & Hg3); [by rewrite Hk2, Hk1 |].
    exists d3. split; [done |]. split; [by rewrite Hk3, Hk2 |].
    intros k v Hv.
    rewrite (Hg3 k _ (Hg2 k _ (Hg1 k v Hv))). f_equal.
    rewrite fmap_cons. cbn [concat]. unfold Main.credited.
    rewrite !occurrences_app. lia.
Qed.

(** ** Sorting *)

Lemma insert_sorted_Permutation (x : string * Z) (l : list (string * Z)) :
  Main.insert_sorted x l ≡ₚ x :: l.
Proof.
  induction l as [|y l IH]; simpl; [done |].
  destruct (- x.2 <=? - y.2); [done |].
  rewrite IH. apply Permutation_swap.
Qed.

Lemma sorted_by_wins_Permutation (l : list (string * Z)) :
  Main.sorted_by_wins l ≡ₚ l.
Proof.
  induction l as [|x l IH]; simpl; [done |].
  by rewrite insert_sorted_Permutation, IH.
Qed.

Lemma insert_sorted_Sorted (x : string * Z) (l : list (string * Z)) :
  Sorted (fun a b => b.2 <= a.2) l ->
  Sorted (fun a b => b.2 <= a.2) (Main.insert_sorted x l).
Proof.
  induction 1 as [|y l Hl IH Hy]; simpl.
  - by repeat constructor.
  - destruct (Z.leb_spec (- x.2) (- y.2)).
    + constructor; [by constructor |]. constructor. lia.
    + constructor; [done |].
      destruct l as [|z l]; simpl in *.
      * constructor. lia.
      * destruct (Z.leb_spec (- x.2) (- z.2)); constructor; [lia |].
        by inversion Hy.
Qed.

Lemma sorted_by_wins_Sorted (l : list (string * Z)) :
  Sorted (fun a b => b.2 <= a.2) (Main.sorted_by_wins l).
Proof.
  induction l as [|x l IH]; simpl; [constructor |].
  by apply insert_sorted_Sorted.
Qed.

(** ** The leaderboard *)

Lemma leaderboard_run (users : gmap Z Main.User) (games : gmap Z Main.Game) :
  exists d,
    Main.leaderboard users games
    = Main.Done (Main.entry <$> Main.sorted_by_wins d) /\
    NoDup d.*1 /\
    (forall k, k ∈ d.*1 <->
               exists id u, users !! id = Some u /\ Main.username u = k) /\
    forall id u,
      users !! id = Some u ->
      Main.dict_get d (Main.username u)
      = Some (Main.occurrences (Main.username u)
                (concat (Main.credited users <$>
                   filter (fun g => Main.winner g ∈ [Some "X"; Some "O"])
                     (Main.game_rows games)))).
Proof.
  unfold Main.leaderboard.
  destruct (win_counts_init (Main.user_rows users) []) as (Hnd & Hkeys & Hzero & _);
    [constructor |].
  cbv zeta in *.
  set (d0 := foldl (fun d u => Main.dict_set d (Main.username u) 0) []
               (Main.user_rows users)) in *.
  assert (forall id u, users !! id = Some u -> Main.username u ∈ Main.username <$> Main.user_rows users)
    as Hnames.
  { intros id u Hu. apply list_elem_of_fmap. exists u. split; [done |].
    apply elem_of_user_rows. by exists id. }
  destruct (credit_all_counts users
              (filter (fun g => Main.winner g ∈ [Some "X"; Some "O"])
                 (Main.game_rows games)) d0) as (d & -> & Hk & Hget).
  { intros id u Hu. apply Hkeys. right. by eapply Hnames. }
  exists d. split.
  { cbn [mbind Main.outcome_bind]. apply (f_equal Main.Done).
    apply list_fmap_ext. by intros i [k v] _. }
  rewrite Hk. split; [done |]. split.
  - intros k. rewrite Hkeys, elem_of_nil, list_elem_of_fmap. split.
    + intros [[] | (u & -> & [id Hu]%elem_of_user_rows)]. by exists id, u.
    + intros (id & u & Hu & <-). right. exists u. split; [done |].
      apply elem_of_user_rows. by exists id.
  - intros id u Hu.
    rewrite (Hget _ 0); [by rewrite Z.add_0_l |].
    apply Hzero. by eapply Hnames.
Qed.

(** X19.  [leaderboard] never ends with an exception, whatever the two
    tables hold: the names it increments are names it has entered.  Its
    entries are in descending order of wins, and they are the names of
    the rows of [users], each name once. *)
Theorem leaderboard_is_sorted (users : gmap Z Main.User)
    (games : gmap Z Main.Game) :
  exists entries,
    Main.leaderboard users games = Main.Done entries /\
    Sorted (fun a b => Main.le_wins b <= Main.le_wins a) entries /\
    NoDup (Main.le_username <$> entries) /\
    forall k, k ∈ Main.le_username <$> entries <->
              exists id u, users !! id = Some u /\ Main.username u = k.
Proof.
  destruct (leaderboard_run users games) as (d & -> & Hnd & Hkeys & _).
  eexists. split; [done |].
  assert (Main.le_username <$> (Main.entry <$> Main.sorted_by_wins d) ≡ₚ d.*1)
    as Hperm.
  { rewrite <- list_fmap_compose.
    change (Main.le_username ∘ Main.entry) with (@fst string Z).
    by rewrite sorted_by_wins_Permutation. }
  split; [| split].
  - eapply Sorted_fmap; [| apply sorted_by_wins_Sorted]. by intros x y.
  - by rewrite Hperm.
  - intros k. by rewrite Hperm.
Qed.





(** * Two more facts about [game_logic.py] *)

(** X15.  [best_ai_move] does not change the board it is given: its two
    search loops write into copies.  Run on a store, it gives the answer,
    or raises the exception, of the computation on the board's value;
    every object the store had is unchanged afterwards, and the board
    object still holds the same value. *)
Theorem best_ai_move_does_not_mutate (σ : Heap.store) (b : Heap.loc)
    (v : board) (ai_symbol user_symbol : string) (draw : nat) :
  Heap.holds σ b v ->
  (forall rc σ',
     Heap.best_ai_move b ai_symbol user_symbol draw σ = Ok (rc, σ') ->
     best_ai_move v ai_symbol user_symbol draw = Ok rc /\
     Heap.preserved σ σ' /\ Heap.holds σ' b v) /\
  (forall e,
     Heap.best_ai_move b ai_symbol user_symbol draw σ = Raise e ->
     best_ai_move v ai_symbol user_symbol draw = Raise e).
Proof.
  intros Hv.
  pose proof (best_ai_move_refines σ b v ai_symbol user_symbol draw Hv) as Href.
  unfold Heap.refines in Href.
  destruct (best_ai_move v ai_symbol user_symbol draw) as [rc0|e0].
  - destruct Href as (σ0 & Hrun & Hsub). rewrite Hrun. split.
    + intros rc σ' [= <- <-]. split; [done |]. split; [done |].
      by eapply holds_preserved.
    + intros e [=].
  - rewrite Href. split; [intros rc σ' [=] | by intros e [= <-]].
Qed.

Lemma best_ai_move_does_not_mutate_witness :
  Heap.holds scenario_store 4%positive scenario_board /\
  exists rc σ',
    Heap.best_ai_move 4%positive "O" "X" 0 scenario_store = Ok (rc, σ') /\
    best_ai_move scenario_board "O" "X" 0 = Ok rc /\
    Heap.holds σ' 4%positive scenario_board.
Proof.
  split; [exact scenario_store_holds |].
  destruct (Heap.best_ai_move 4%positive "O" "X" 0 scenario_store)
    as [[rc σ']|e] eqn:Hrun; [| by vm_compute in Hrun].
  destruct (best_ai_move_does_not_mutate scenario_store 4%positive
              scenario_board "O" "X" 0 scenario_store_holds) as [Hok _].
  destruct (Hok rc σ' Hrun) as (Hval & _ & Hholds).
  by exists rc, σ'.
Defined.

(** X21.  Two turns later it is the same player's turn, for the two
    marks and for no other string: [next_turn] applied twice gives back
    its argument exactly on ["X"] and ["O"]. *)
Theorem next_turn_twice (current : string) :
  next_turn (next_turn current) = current <->
  current = "X" \/ current = "O".
Proof.
  unfold next_turn. destruct (String.eqb_spec current "X") as [-> | Hne].
  - split; [by left | done].
  - simpl. split; [by right | intros [-> | ->]; done].
Qed.

(** * [main.py] and [models.py]: the moves of the history records *)

Lemma replays_in_range (ms : list move) (b : board) :
  Main.replays ms b -> Forall (fun m => in_range (m_row m) (m_col m)) ms.
Proof.
  induction 1 as [|ms b r c b' Hrep IH Hval Hmove]; [constructor |].
  destruct (replays_rebuild ms b Hrep) as [_ Hb].
  destruct (validate_move_answer b r c Hb) as (_ & Hiff & _).
  apply Hiff in Hval as (Hr & Hc & _).
  apply Forall_app. split; [done |].
  apply Forall_singleton. by split.
Qed.

Lemma new_Moves_in_range (ms : list move) :
  Forall (fun m => in_range (m_row m) (m_col m)) ms ->
  Main.new_Moves ms = Main.Done ms.
Proof.
  induction 1 as [|[r c p] ms [Hr Hc] _ IH]; [done |].
  cbn [m_row m_col] in Hr, Hc.
  cbn [Main.new_Moves m_row m_col m_player]. unfold Main.new_Move.
  destruct (Z.leb_spec 0 r), (Z.leb_spec r 2), (Z.leb_spec 0 c),
    (Z.leb_spec c 2); try lia.
  cbn [andb mbind Main.outcome_bind]. by rewrite IH.
Qed.

(** X22.  Every move [make_move] stores passes the bounds [models.Move]
    declares: on a table the handlers can produce, building the list of
    [Move] objects of a game's history record never raises a validation
    error, and gives the stored moves, unchanged and in order. *)
Theorem record_moves_are_valid (games : gmap Z Main.Game) (gid : Z)
    (g : Main.Game) :
  Main.reachable games ->
  games !! gid = Some g ->
  Main.record_moves g = Main.Done (Main.moves_or_empty g) /\
  Forall (fun m => 0 <= m_row m <= 2 /\ 0 <= m_col m <= 2)
    (Main.moves_or_empty g).
Proof.
  intros Hreach Hg.
  destruct (reachable_invariant games gid g Hreach Hg) as ([b [Hrep _]] & _).
  pose proof (replays_in_range _ _ Hrep) as Hrange.
  split.
  - unfold Main.record_moves, Main.moves_or_empty in *.
    destruct (Main.moves g) as [[|m ms]|]; try done.
    by apply new_Moves_in_range.
  - eapply Forall_impl; [done |]. unfold in_range. intros m. simpl. lia.
Qed.

Lemma record_moves_are_valid_witness :
  exists g,
    Main.reachable played_table /\
    played_table !! fresh (dom (∅ : gmap Z Main.Game)) = Some g /\
    Main.record_moves g = Main.Done (Main.moves_or_empty g).
Proof.
  destruct (played_table !! fresh (dom (∅ : gmap Z Main.Game))) as [g|] eqn:Hg;
    [| by vm_compute in Hg].
  exists g. split; [apply played_table_reachable |]. split; [done |].
  by destruct (record_moves_are_valid played_table _ g
                 played_table_reachable Hg).
Defined.
